(** * jupyterdrive/gdrive/gapi_utils.js

    A shallow embedding of the Google API helper module of jupyter-drive
    and the properties of its three exports: [download], [execute] and
    [gapi_ready].

    The module is callback and promise glue around collaborators it does
    not define (the vendor library [gapi], jQuery, the notebook's [utils]
    and [dialog]).  Their behaviour is an oracle, the record [world]; the
    calls the module makes to them are recorded, in order, in a log.  A
    promise is represented by the state it ends in, [Pending] when
    nothing settles it.  Polling may go on for ever: it is observed for a
    number of timer firings, and the properties hold for every such
    number. *)

From Stdlib Require Import List String Ascii ZArith Bool Arith Lia.
From Stdlib Require Import Floats.SpecFloat.
From Equations.Prop Require Import Equations Logic.
Import ListNotations.
Open Scope string_scope.

Set Warnings "-register-all".

(** ** JavaScript values *)

(** The data the module handles: results of vendor calls are plain data
    (parsed JSON, token objects), and the errors it builds are [Error]
    objects.  An object is the list of its own properties; [VError] is an
    object whose prototype is [Error.prototype]. *)
Inductive value : Type :=
| VUndefined
| VNull
| VBool (b : bool)
| VNumber (n : spec_float)
| VString (s : string)
| VArray (items : list value)
| VObject (props : list (string * value))
| VError (props : list (string * value)).

(** The outcome of a call: it returns, or it throws. *)
Inductive call (A : Type) : Type :=
| Returns (a : A)
| Throws (e : value).
Arguments Returns {A} a.
Arguments Throws {A} e.

(** A promise, by the state it ends in. *)
Inductive promise : Type :=
| Pending
| Fulfilled (v : value)
| Rejected (reason : value).

(** What an executor did with the [resolve] and [reject] it was given. *)
Inductive settle : Type :=
| NoSettle
| Resolve (p : promise)
| Reject (reason : value).

(** ToBoolean. *)
Definition truthy (v : value) : bool :=
  match v with
  | VUndefined | VNull => false
  | VBool b => b
  | VNumber (S754_zero _) | VNumber S754_nan => false
  | VNumber _ => true
  | VString s => negb (String.eqb s "")
  | VArray _ | VObject _ | VError _ => true
  end.

Fixpoint lookup (k : string) (props : list (string * value)) : option value :=
  match props with
  | [] => None
  | (k', v) :: rest => if String.eqb k k' then Some v else lookup k rest
  end.

Fixpoint update (k : string) (v : value) (props : list (string * value))
  : list (string * value) :=
  match props with
  | [] => [(k, v)]
  | (k', v') :: rest =>
      if String.eqb k k' then (k, v) :: rest else (k', v') :: update k v rest
  end.

Definition TypeError (message : string) : value :=
  VError [("message", VString message); ("name", VString "TypeError")].

(** [base[k]] for a property name [k]: own properties first, then the
    prototype.  [Error.prototype] holds [name] and [message]; reading a
    property of [undefined] or [null] throws.  Index and [length]
    properties of strings and arrays are not modelled: the module reads
    ['error'], ['message'] and [access_token] only. *)
Definition get (base : value) (k : string) : call value :=
  match base with
  | VUndefined | VNull =>
      Throws (TypeError ("Cannot read property '" ++ k ++ "'"))
  | VObject props =>
      Returns (match lookup k props with Some v => v | None => VUndefined end)
  | VError props =>
      Returns (match lookup k props with
               | Some v => v
               | None => if String.eqb k "name" then VString "Error"
                         else if String.eqb k "message" then VString ""
                         else VUndefined
               end)
  | VBool _ | VNumber _ | VString _ | VArray _ => Returns VUndefined
  end.

(** [base[k] = v] on an object; the assignment is used on errors only. *)
Definition set (base : value) (k : string) (v : value) : value :=
  match base with
  | VObject props => VObject (update k v props)
  | VError props => VError (update k v props)
  | _ => base
  end.

(** ** The collaborators *)

(** A call the module makes to a collaborator. *)
Inductive event : Type :=
| EvGetToken
| EvHttpGet (url : string) (headers : value)
| EvRequestExecute
| EvCondition (result : bool)
| EvConditionThrows (e : value)
| EvSetTimeout (interval : Z)
| EvGetScript (url : string)
| EvGapiLoad (names : string)
| EvClientLoad (api version : string)
| EvAuthorize (params : value)
| EvDialogModal (title body : string) (buttons : list string)
| EvUncaught (e : value).

(** The answer of the server to an HTTP request. *)
Inductive http_answer : Type :=
| HttpSuccess (contents : value)
| HttpFailure (message : string)
| HttpSilent.

(** The behaviour of everything the module calls.  A callback-taking call
    answers [Returns (Some v)] when its callback is invoked with [v],
    [Returns None] when it never is, and [Throws e] when the call itself
    throws. *)
Record world : Type := {
  (** Number::toString of the host. *)
  Number_toString : spec_float -> string;
  (** [gapi.auth.getToken()]. *)
  getToken : call value;
  (** The server, asked for [url] with the given headers. *)
  http_get : string -> value -> http_answer;
  (** [$.getScript(url)]: the state the returned jqXHR ends in. *)
  getScript : string -> call promise;
  (** [utils.wrap_ajax_error], applied to a rejection reason. *)
  wrap_ajax_error : value -> call value;
  (** [!!(window.gapi && gapi.client)] after the given number of timer
      ticks. *)
  gapi_defined : nat -> bool;
  (** [gapi.load(names, callback)]. *)
  gapi_load : string -> call bool;
  (** [gapi.client.load(api, version, callback)]. *)
  client_load : string -> string -> call (option value);
  (** [gapi.auth.authorize(params, callback)]. *)
  auth_authorize : value -> call (option value);
  (** [dialog.modal(options)]: the button the user clicks, with the click
      event handed to its handler. *)
  dialog_modal : string -> string -> list string -> call (option (string * value));
  (** Whether what a callback throws comes out of the call that was given
      the callback: the collaborator invokes it before it returns, and
      does not catch. *)
  rethrows : event -> bool
}.

(** The request object handed to [execute]: what its [execute(callback)]
    method does. *)
Definition request : Type := call (option value).

(** ** Computations *)

Record state : Type := {
  log : list event;   (* the calls made so far, oldest first *)
  now : nat           (* timer ticks elapsed *)
}.

Definition M (A : Type) : Type := state -> call A * state.

Definition ret {A} (a : A) : M A := fun st => (Returns a, st).

Definition bind {A B} (m : M A) (k : A -> M B) : M B :=
  fun st =>
    match m st with
    | (Returns a, st') => k a st'
    | (Throws e, st') => (Throws e, st')
    end.

Declare Scope js_scope.
Delimit Scope js_scope with js.
Notation "x <- m ;; k" := (bind m (fun x => k))
  (at level 61, m at next level, right associativity) : js_scope.
Notation "m ;; k" := (bind m (fun _ => k))
  (at level 61, right associativity) : js_scope.
Open Scope js_scope.

Definition lift {A} (c : call A) : M A := fun st => (c, st).

Definition emit (e : event) : M unit :=
  fun st => (Returns tt, {| log := log st ++ [e]; now := now st |}).

(** A call to a collaborator: logged, then answered by the world. *)
Definition external {A} (e : event) (answer : call A) : M A :=
  emit e ;; lift answer.

(** [condition()], with what it finds at the current tick: it returns
    a boolean, or it throws. *)
Definition evaluate (condition : nat -> call bool) : M bool :=
  fun st =>
    match condition (now st) with
    | Returns b => external (EvCondition b) (Returns b) st
    | Throws e => external (EvConditionThrows e) (Throws e) st
    end.

(** One timer fires. *)
Definition tick : M unit :=
  fun st => (Returns tt, {| log := log st; now := S (now st) |}).

(** [new Promise(executor)]: an executor that throws rejects the
    promise; [resolve(p)] with a promise [p] adopts its state. *)
Definition new_Promise (executor : M settle) : M promise :=
  fun st =>
    match executor st with
    | (Returns NoSettle, st') => (Returns Pending, st')
    | (Returns (Resolve p), st') => (Returns p, st')
    | (Returns (Reject r), st') => (Returns (Rejected r), st')
    | (Throws e, st') => (Returns (Rejected e), st')
    end.

(** The body of a callback.  What it throws comes out of the call that
    was given the callback when [rethrown] says so; when the callback is
    invoked later, nothing catches it, and the promise the body would
    have settled is left as it is. *)
Definition callback (rethrown : bool) (body : M settle) : M settle :=
  fun st =>
    match body st with
    | (Throws e, st') =>
        if rethrown then (Throws e, st')
        else (Returns NoSettle,
              {| log := log st' ++ [EvUncaught e]; now := now st' |})
    | r => r
    end.

(** A handler given to [then]: its return value resolves the derived
    promise, what it throws rejects it. *)
Definition run_handler (h : M promise) : M promise :=
  fun st =>
    match h st with
    | (Throws e, st') => (Returns (Rejected e), st')
    | r => r
    end.

(** [p.then(onFulfilled, onRejected)]; a missing handler passes the
    state of [p] on. *)
Definition then_ (p : promise)
    (onFulfilled onRejected : option (value -> M promise)) : M promise :=
  match p, onFulfilled, onRejected with
  | Fulfilled v, Some h, _ => run_handler (h v)
  | Rejected r, _, Some h => run_handler (h r)
  | _, _, _ => ret p
  end.

(** [p.catch(onRejected)]. *)
Definition catch_ (p : promise) (onRejected : value -> M promise) : M promise :=
  then_ p None (Some onRejected).

(** Sequencing of calls that may throw, for code that touches no
    collaborator. *)
Definition call_bind {A B} (c : call A) (k : A -> call B) : call B :=
  match c with
  | Returns a => k a
  | Throws e => Throws e
  end.

Notation "x <~ c ;; k" := (call_bind c (fun x => k))
  (at level 61, c at next level, right associativity) : js_scope.

(** ** The module *)

Section GapiUtils.

Variable w : world.

(** ToString, on the data the module handles: the own properties of an
    object are data, none of them is [toString] (JavaScript throws a
    TypeError for an object whose own [toString] cannot be called). *)
Fixpoint ToString (v : value) : string :=
  match v with
  | VUndefined => "undefined"
  | VNull => "null"
  | VBool true => "true"
  | VBool false => "false"
  | VNumber n => Number_toString w n
  | VString s => s
  | VArray items =>
      (fix join (l : list value) : string :=
         match l with
         | [] => ""
         | x :: rest =>
             let sx := match x with
                       | VUndefined | VNull => ""
                       | _ => ToString x
                       end in
             match rest with
             | [] => sx
             | _ :: _ => sx ++ "," ++ join rest
             end
         end) items
  | VObject _ => "[object Object]"
  | VError props =>
      (* Error.prototype.toString *)
      let own :=
        fix own (k default : string) (l : list (string * value)) : string :=
          match l with
          | [] => default
          | (k', x) :: rest =>
              if String.eqb k k' then
                match x with
                | VUndefined => default
                | _ => ToString x
                end
              else own k default rest
          end in
      let name := own "name" "Error" props in
      let msg := own "message" "" props in
      if String.eqb name "" then msg
      else if String.eqb msg "" then name
      else name ++ ": " ++ msg
  end.

(** [new Error(message)]: the message, unless undefined, becomes an own
    property, converted to a string. *)
Definition new_Error (message : value) : value :=
  match message with
  | VUndefined => VError []
  | _ => VError [("message", VString (ToString message))]
  end.

Definition FILES_OAUTH_SCOPE : string :=
  "https://www.googleapis.com/auth/drive.file".

Definition METADATA_OAUTH_SCOPE : string :=
  "https://www.googleapis.com/auth/drive.readonly.metadata".

(** Modelled from the spec: [utils.promising_ajax] belongs to the
    notebook's [base/js/utils], which is not part of this repository's
    sources.  It issues an HTTP GET ([settings] names no other method)
    with the headers of [settings], and returns a promise resolved with
    the contents on success, rejected with an Error on a network or
    authorization failure. *)
Definition promising_ajax (url : string) (settings : value) : M promise :=
  headers <- lift (get settings "headers") ;;
  emit (EvHttpGet url headers) ;;
  match http_get w url headers with
  | HttpSuccess contents => ret (Fulfilled contents)
  | HttpFailure message => ret (Rejected (new_Error (VString message)))
  | HttpSilent => ret Pending
  end.

(** [download(url)].  It throws, instead of returning a promise, when
    [gapi.auth.getToken()] throws or returns no object. *)
Definition download (url : string) : M promise :=
  tok <- external EvGetToken (getToken w) ;;
  token <- lift (get tok "access_token") ;;
  let settings :=
    VObject [("headers",
              VObject [("Authorization",
                        VString ("Bearer " ++ ToString token))])] in
  promising_ajax url settings.

(** [wrap_result(result)]: [Promise.reject(error)] or
    [Promise.resolve(result)]. *)
Definition wrap_result (result : value) : call promise :=
  if negb (truthy result) then
    (* Error type 1: result is False *)
    let error := new_Error (VString "Unknown error during Google API call") in
    let error := set error "name" (VString "GapiError") in
    Returns (Rejected error)
  else
    e <~ get result "error" ;;
    if truthy e then
      (* Error type 2: an error resource *)
      e1 <~ get result "error" ;;
      message <~ get e1 "message" ;;
      let error := new_Error message in
      e2 <~ get result "error" ;;
      let error := set error "gapi_error" e2 in
      Returns (Rejected error)
    else
      Returns (Fulfilled result).

(** [execute(request)]. *)
Definition execute (req : request) : M promise :=
  new_Promise (
    answer <- external EvRequestExecute req ;;
    match answer with
    | Some result =>
        callback (rethrows w EvRequestExecute)
          (p <- lift (wrap_result result) ;; ret (Resolve p))
    | None => ret NoSettle
    end).

(** [polling_function], the first call and the next [timers] calls that
    [setTimeout] makes.  A timer set and not yet fired leaves the promise
    as it is. *)
Fixpoint polling_function (condition : nat -> call bool) (interval : Z)
    (timers : nat) : M settle :=
  b <- evaluate condition ;;
  if b : bool then ret (Resolve (Fulfilled VUndefined))
  else
    emit (EvSetTimeout interval) ;;
    match timers with
    | 0 => ret NoSettle
    | S timers' =>
        tick ;; callback false (polling_function condition interval timers')
    end.

(** [poll(condition, interval)], observed until [timers] timers have
    fired. *)
Definition poll (condition : nat -> call bool) (interval : Z) (timers : nat)
  : M promise :=
  new_Promise (polling_function condition interval timers).

(** [load_gapi_1()]: [Promise.resolve] adopts the state of the jqXHR
    that [$.getScript] returns. *)
Definition load_gapi_1 (timers : nat) : M promise :=
  xhr <- external (EvGetScript "https://apis.google.com/js/client.js")
           (getScript w "https://apis.google.com/js/client.js") ;;
  then_ xhr
    (Some (fun _ =>
       (* poll every 100ms until window.gapi and gapi.client exist. *)
       poll (fun t => Returns (gapi_defined w t)) 100 timers))
    (Some (fun reason =>
       wrapped <- lift (wrap_ajax_error w reason) ;; ret (Fulfilled wrapped))).

(** [load_gapi_2(d)]: [resolve] itself is the callback of
    [gapi.client.load]. *)
Definition load_gapi_2 (d : value) : M promise :=
  new_Promise (
    loaded <- external (EvGapiLoad "auth:client,drive-realtime,drive-share")
                (gapi_load w "auth:client,drive-realtime,drive-share") ;;
    if loaded : bool then
      callback (rethrows w (EvGapiLoad "auth:client,drive-realtime,drive-share")) (
        answer <- external (EvClientLoad "drive" "v2")
                    (client_load w "drive" "v2") ;;
        match answer with
        | Some v => ret (Resolve (Fulfilled v))
        | None => ret NoSettle
        end)
    else ret NoSettle).

Definition CLIENT_ID : string :=
  "911569945122-tlvi6ucbj137ifhitpqpdikf3qo1mh9d.apps.googleusercontent.com".

(** The parameters [authorize_internal] passes to [gapi.auth.authorize]. *)
Definition authorize_params (opt_withPopup : value) : value :=
  VObject [("client_id", VString CLIENT_ID);
           ("scope", VArray [VString FILES_OAUTH_SCOPE;
                             VString METADATA_OAUTH_SCOPE]);
           ("immediate", VBool (negb (truthy opt_withPopup)))].

(** [authorize_internal()], the closure of [authorize] over
    [opt_withPopup]. *)
Definition authorize_internal (opt_withPopup : value) : M promise :=
  new_Promise (
    answer <- external (EvAuthorize (authorize_params opt_withPopup))
                (auth_authorize w (authorize_params opt_withPopup)) ;;
    match answer with
    | Some result =>
        callback (rethrows w (EvAuthorize (authorize_params opt_withPopup)))
          (p <- lift (wrap_result result) ;; ret (Resolve p))
    | None => ret NoSettle
    end).

(** [options.buttons[label].click]. *)
Fixpoint click_handler (label : string)
    (buttons : list (string * (value -> M settle)))
  : option (value -> M settle) :=
  match buttons with
  | [] => None
  | (l, h) :: rest => if String.eqb label l then Some h
                      else click_handler label rest
  end.

(** [dialog.modal(options)], seen from an executor: the dialog is shown
    and the [click] handler of the button the user chooses runs, after
    [dialog.modal] has returned. *)
Definition modal (title body : string)
    (buttons : list (string * (value -> M settle))) : M settle :=
  click <- external (EvDialogModal title body (map fst buttons))
             (dialog_modal w title body (map fst buttons)) ;;
  match click with
  | Some (label, ev) =>
      match click_handler label buttons with
      | Some h => callback false (h ev)
      | None => ret NoSettle
      end
  | None => ret NoSettle
  end.

(** [authorize] calls itself with [true] from the handler that catches
    the failure of the attempt without popup. *)
Equations? authorize (opt_withPopup : value) : M promise
  by wf (if truthy opt_withPopup then 0 else 1) lt :=
authorize opt_withPopup with inspect (truthy opt_withPopup) := {
  | exist _ true _ =>
      new_Promise (
        (* Gets user to initiate the authorization with a dialog,
           to prevent popup blockers. *)
        modal "Authentication needed"
          "Accessing Google Drive requires authentication.  Click ok to proceed."
          [("ok", fun _ => p <- authorize_internal opt_withPopup ;;
                           ret (Resolve p));
           ("cancel", fun ev => ret (Reject ev))])
  | exist _ false _ =>
      (* Return result of authorize, trying again with withPopup=true
         in case of failure. *)
      p <- authorize_internal opt_withPopup ;;
      catch_ p (fun _ => authorize (VBool true)) }.
Proof.
  rewrite e. simpl. lia.
Qed.

(** [load_gapi_1().then(load_gapi_2).then(authorize)]. *)
Definition gapi_ready (timers : nat) : M promise :=
  p1 <- load_gapi_1 timers ;;
  p2 <- then_ p1 (Some load_gapi_2) None ;;
  then_ p2 (Some authorize) None.

(** What the module returns. *)
Record drive_utils : Type := {
  exported_download : string -> M promise;
  exported_execute : request -> M promise;
  exported_gapi_ready : promise
}.

(** The body of the module, run once when it is loaded. *)
Definition define (timers : nat) : M drive_utils :=
  ready <- gapi_ready timers ;;
  ret {| exported_download := download;
         exported_execute := execute;
         exported_gapi_ready := ready |}.

End GapiUtils.

(** ** Worlds for the examples *)

Definition click_event : value := VObject [("type", VString "click")].

Definition token_object : value := VObject [("access_token", VString "ya29.token")].

(** What [gapi.auth.authorize] hands to its callback when the attempt in
    immediate mode fails. *)
Definition immediate_failed : value :=
  VObject [("error", VString "immediate_failed")].

(** An error resource of the Drive API. *)
Definition file_not_found : value :=
  VObject [("error",
            VObject [("code", VString "404");
                     ("message", VString "File not found: f1")])].

(** The error [utils.wrap_ajax_error] builds, when it returns it. *)
Definition XhrError (xhr : value) : value :=
  VError [("message", VString "error"); ("name", VString "XhrError");
          ("xhr", xhr)].

(** A session in which the library is there after two timer ticks, the
    attempt in immediate mode fails, the user clicks ok and the attempt
    with popup returns a token.  No example prints a number. *)
Definition popup_world : world := {|
  Number_toString := fun _ => "NaN";
  getToken := Returns token_object;
  http_get := fun _ _ => HttpSuccess (VString "{}");
  getScript := fun _ => Returns (Fulfilled (VString "script"));
  wrap_ajax_error := fun xhr => Returns (XhrError xhr);
  gapi_defined := fun t => Nat.leb 2 t;
  gapi_load := fun _ => Returns true;
  client_load := fun _ _ => Returns (Some VUndefined);
  auth_authorize := fun params =>
    match get params "immediate" with
    | Returns (VBool true) => Returns (Some immediate_failed)
    | _ => Returns (Some token_object)
    end;
  dialog_modal := fun _ _ _ => Returns (Some ("ok", click_event));
  rethrows := fun _ => false
|}.

(** A session without network: the script fails to load, the library
    never appears, and the user cancels. *)
Definition offline_world : world := {|
  Number_toString := Number_toString popup_world;
  getToken := Throws (VError [("message", VString "gapi is not defined");
                              ("name", VString "ReferenceError")]);
  http_get := fun _ _ => HttpFailure "Network error";
  getScript := fun _ => Returns (Rejected (VObject [("status", VString "error")]));
  wrap_ajax_error := wrap_ajax_error popup_world;
  gapi_defined := fun _ => false;
  gapi_load := fun _ => Throws (VError [("message", VString "gapi is not defined");
                                        ("name", VString "ReferenceError")]);
  client_load := client_load popup_world;
  auth_authorize := auth_authorize popup_world;
  dialog_modal := fun _ _ _ => Returns (Some ("cancel", click_event));
  rethrows := rethrows popup_world
|}.

(** The session of [popup_world], except that the callback of
    [gapi.client.load] is handed an object. *)
Definition talkative_world : world := {|
  Number_toString := Number_toString popup_world;
  getToken := getToken popup_world;
  http_get := http_get popup_world;
  getScript := getScript popup_world;
  wrap_ajax_error := wrap_ajax_error popup_world;
  gapi_defined := fun _ => true;
  gapi_load := gapi_load popup_world;
  client_load := fun _ _ => Returns (Some (VObject [("kind", VString "discovery")]));
  auth_authorize := auth_authorize popup_world;
  dialog_modal := dialog_modal popup_world;
  rethrows := rethrows popup_world
|}.

Definition start : state := {| log := []; now := 0 |}.

(** ** Vocabulary of the statements *)

(** The result has a truthy ['error'] field. *)
Definition has_error (result : value) : bool :=
  match get result "error" with
  | Returns e => truthy e
  | Throws _ => false
  end.

Definition is_Error (v : value) : bool :=
  match v with
  | VError _ => true
  | _ => false
  end.

(** The message of [new Error(message)], as [get] reads it. *)
Definition Error_message (w : world) (message : value) : string :=
  match message with
  | VUndefined => ""
  | _ => ToString w message
  end.

(** The calls [polling_function] makes. *)
Definition is_polling_event (e : event) : bool :=
  match e with
  | EvCondition _ | EvConditionThrows _ | EvSetTimeout _ => true
  | _ => false
  end.

(** [st] after the calls [evs]. *)
Definition logged (st : state) (evs : list event) : state :=
  {| log := log st ++ evs; now := now st |}.

(** The dialog [authorize] shows. *)
Definition authentication_dialog : event :=
  EvDialogModal "Authentication needed"
    "Accessing Google Drive requires authentication.  Click ok to proceed."
    ["ok"; "cancel"].

(** What the user does with that dialog. *)
Definition user_click (w : world) : call (option (string * value)) :=
  dialog_modal w "Authentication needed"
    "Accessing Google Drive requires authentication.  Click ok to proceed."
    ["ok"; "cancel"].

(** The promise of one attempt, given the answer of
    [gapi.auth.authorize]. *)
Definition attempt_settles (w : world) (params : value) (p : promise) : Prop :=
  match auth_authorize w params with
  | Throws e => p = Rejected e
  | Returns None => p = Pending
  | Returns (Some result) => wrap_result w result = Returns p
  end.

(** The parameters of the attempts among the calls [evs], in order. *)
Definition authorize_attempts (evs : list event) : list value :=
  flat_map (fun e => match e with
                     | EvAuthorize params => [params]
                     | _ => []
                     end) evs.

(** The request for the client id of the application and its two
    scopes. *)
Definition authorize_request (immediate : bool) : value :=
  VObject
    [("client_id",
      VString "911569945122-tlvi6ucbj137ifhitpqpdikf3qo1mh9d.apps.googleusercontent.com");
     ("scope",
      VArray [VString "https://www.googleapis.com/auth/drive.file";
              VString "https://www.googleapis.com/auth/drive.readonly.metadata"]);
     ("immediate", VBool immediate)].

(** The script [load_gapi_1] fetches and the modules [load_gapi_2] loads. *)
Definition client_js : string := "https://apis.google.com/js/client.js".

Definition feature_modules : string := "auth:client,drive-realtime,drive-share".

(** The step of the chain that makes a call: 1 for the fetch and the
    polling, 2 for the loading of the modules, 3 for the authorization,
    0 for the calls of [download] and [execute]. *)
Definition startup_step (e : event) : nat :=
  match e with
  | EvGetScript _ | EvCondition _ | EvConditionThrows _ | EvSetTimeout _ => 1
  | EvGapiLoad _ | EvClientLoad _ _ | EvUncaught _ => 2
  | EvAuthorize _ | EvDialogModal _ _ _ => 3
  | EvGetToken | EvHttpGet _ _ | EvRequestExecute => 0
  end.

(** A fetch of the script. *)
Definition is_fetch (e : event) : bool :=
  match e with
  | EvGetScript _ => true
  | _ => false
  end.

(** The values that convert to a string without a call to a method of
    theirs. *)
Definition primitive (v : value) : bool :=
  match v with
  | VArray _ | VObject _ | VError _ => false
  | _ => true
  end.

(** [k] evaluations that find the condition false, each followed by the
    timer it sets. *)
Fixpoint failed_polls (interval : Z) (k : nat) : list event :=
  match k with
  | 0 => []
  | S k' => EvCondition false :: EvSetTimeout interval :: failed_polls interval k'
  end.

(** A session before any authorization: there is no token yet. *)
Definition signed_out_world : world := {|
  Number_toString := Number_toString popup_world;
  getToken := Returns VNull;
  http_get := http_get popup_world;
  getScript := getScript popup_world;
  wrap_ajax_error := wrap_ajax_error popup_world;
  gapi_defined := gapi_defined popup_world;
  gapi_load := gapi_load popup_world;
  client_load := client_load popup_world;
  auth_authorize := auth_authorize popup_world;
  dialog_modal := fun _ _ _ => Returns None;
  rethrows := rethrows popup_world
|}.

(** A session in which [gapi.load] invokes its callback before it
    returns, and [gapi.client.load] throws. *)
Definition eager_world : world := {|
  Number_toString := Number_toString popup_world;
  getToken := getToken popup_world;
  http_get := http_get popup_world;
  getScript := getScript popup_world;
  wrap_ajax_error := wrap_ajax_error popup_world;
  gapi_defined := gapi_defined popup_world;
  gapi_load := gapi_load popup_world;
  client_load := fun _ _ => Throws (TypeError "gapi.client is undefined");
  auth_authorize := auth_authorize popup_world;
  dialog_modal := dialog_modal popup_world;
  rethrows := fun _ => true
|}.

(** A session whose token object carries no [access_token]. *)
Definition tokenless_world : world := {|
  Number_toString := Number_toString popup_world;
  getToken := Returns (VObject [("state", VString "expired")]);
  http_get := fun _ _ => HttpFailure "Unauthorized";
  getScript := getScript popup_world;
  wrap_ajax_error := wrap_ajax_error popup_world;
  gapi_defined := gapi_defined popup_world;
  gapi_load := gapi_load popup_world;
  client_load := client_load popup_world;
  auth_authorize := auth_authorize popup_world;
  dialog_modal := dialog_modal popup_world;
  rethrows := rethrows popup_world
|}.

(** * Properties *)

(** ** Result normalization *)

Lemma get_truthy (v : value) (k : string) :
  truthy v = true -> exists x, get v k = Returns x.
Proof.
  destruct v; simpl; intros H; try discriminate; eauto.
Qed.

Lemma wrap_result_falsy (w : world) (result : value) :
  truthy result = false ->
  wrap_result w result =
    Returns (Rejected (VError [("message", VString "Unknown error during Google API call");
                               ("name", VString "GapiError")])).
Proof.
  intros H. unfold wrap_result. rewrite H. reflexivity.
Qed.

Lemma wrap_result_error (w : world) (result e message : value) :
  truthy result = true ->
  get result "error" = Returns e ->
  truthy e = true ->
  get e "message" = Returns message ->
  wrap_result w result =
    Returns (Rejected (set (new_Error w message) "gapi_error" e)).
Proof.
  intros Hr He Ht Hm. unfold wrap_result.
  rewrite Hr. simpl. rewrite He. simpl. rewrite Ht, Hm. reflexivity.
Qed.

Lemma wrap_result_success (w : world) (result e : value) :
  truthy result = true ->
  get result "error" = Returns e ->
  truthy e = false ->
  wrap_result w result = Returns (Fulfilled result).
Proof.
  intros Hr He Ht. unfold wrap_result.
  rewrite Hr. simpl. rewrite He. simpl. rewrite Ht. reflexivity.
Qed.

(** [wrap_result] never throws, and rejects exactly the falsy results and
    the results with a truthy ['error']. *)
Lemma wrap_result_returns (w : world) (result : value) :
  exists p, wrap_result w result = Returns p /\
    (if negb (truthy result) || has_error result
     then exists reason, p = Rejected reason
     else p = Fulfilled result).
Proof.
  destruct (truthy result) eqn:Hr.
  - destruct (get_truthy result "error" Hr) as [e He].
    unfold has_error. rewrite He. simpl.
    destruct (truthy e) eqn:Ht.
    + destruct (get_truthy e "message" Ht) as [m Hm].
      rewrite (wrap_result_error w result e m Hr He Ht Hm). eauto.
    + rewrite (wrap_result_success w result e Hr He Ht). eauto.
  - rewrite (wrap_result_falsy w result Hr). simpl. eauto.
Qed.

(** The callback [function(result) { resolve(wrap_result(result)); }]. *)
Lemma resolve_wrapped (w : world) (rethrown : bool) (result : value)
    (p : promise) (st : state) :
  wrap_result w result = Returns p ->
  callback rethrown (p <- lift (wrap_result w result) ;; ret (Resolve p)) st
  = (Returns (Resolve p), st).
Proof.
  intros H. unfold callback, bind, lift, ret. rewrite H. reflexivity.
Qed.

Lemma execute_called_back (w : world) (result : value) (p : promise) (st : state) :
  wrap_result w result = Returns p ->
  execute w (Returns (Some result)) st
  = (Returns p, {| log := log st ++ [EvRequestExecute]; now := now st |}).
Proof.
  intros H. unfold execute, new_Promise, external, bind, emit, lift.
  rewrite (resolve_wrapped w _ result p _ H). reflexivity.
Qed.

(** C1.  When the request hands [result] to its callback, the promise
    that [execute] returns is rejected if and only if [result] is falsy
    or has a truthy ['error'] field, and is otherwise resolved with
    [result] itself. *)
Theorem execute_rejects_iff_falsy_or_error
    (w : world) (req : request) (result : value) (st : state) :
  req = Returns (Some result) ->
  exists p,
    execute w req st
    = (Returns p, {| log := log st ++ [EvRequestExecute]; now := now st |}) /\
    ((exists reason, p = Rejected reason) <->
     (truthy result = false \/ has_error result = true)) /\
    (truthy result = true -> has_error result = false -> p = Fulfilled result).
Proof.
  intros ->.
  destruct (wrap_result_returns w result) as [p [Hp Hcase]].
  exists p. split; [apply execute_called_back; exact Hp|].
  destruct (truthy result) eqn:Hr; destruct (has_error result) eqn:He;
    simpl in Hcase.
  - split; [tauto | discriminate].
  - subst p. split; [|reflexivity].
    split; [intros [r Hr']; discriminate | intros [H|H]; discriminate].
  - split; [tauto | discriminate].
  - split; [tauto | discriminate].
Qed.

Lemma execute_rejects_iff_falsy_or_error_witness :
  exists p,
    execute popup_world (Returns (Some immediate_failed)) start
    = (Returns p, {| log := [EvRequestExecute]; now := 0 |}) /\
    ((exists reason, p = Rejected reason) <->
     (truthy immediate_failed = false \/ has_error immediate_failed = true)) /\
    (truthy immediate_failed = true -> has_error immediate_failed = false ->
     p = Fulfilled immediate_failed).
Proof.
  exact (execute_rejects_iff_falsy_or_error popup_world
           (Returns (Some immediate_failed)) immediate_failed start eq_refl).
Defined.

Lemma new_Error_is_Error (w : world) (message : value) :
  exists props, new_Error w message = VError props /\
    get (VError props) "message" = Returns (VString (Error_message w message)) /\
    lookup "gapi_error" props = None.
Proof.
  destruct message; simpl; eexists; (split; [reflexivity|]);
    split; reflexivity.
Qed.

Lemma lookup_update_same (k : string) (v : value) (props : list (string * value)) :
  lookup k (update k v props) = Some v.
Proof.
  induction props as [|[k' v'] rest IH]; simpl.
  - rewrite String.eqb_refl. reflexivity.
  - destruct (String.eqb k k') eqn:E; simpl; rewrite ?String.eqb_refl, ?E; auto.
Qed.

Lemma lookup_update_other (k k' : string) (v : value) (props : list (string * value)) :
  String.eqb k' k = false ->
  lookup k' (update k v props) = lookup k' props.
Proof.
  intros Hk. induction props as [|[k0 v0] rest IH]; simpl.
  - rewrite Hk. reflexivity.
  - destruct (String.eqb k k0) eqn:E; simpl.
    + apply String.eqb_eq in E. subst k0. rewrite Hk. reflexivity.
    + rewrite IH. reflexivity.
Qed.

(** C5, the claim at the result of a failed attempt without popup: the
    rejection carries the message [""], and [result.error.message] is
    [undefined]. *)
Lemma wrap_result_message_counterexample :
  exists reason,
    wrap_result popup_world immediate_failed = Returns (Rejected reason) /\
    get immediate_failed "error" = Returns (VString "immediate_failed") /\
    get reason "message" = Returns (VString "") /\
    get (VString "immediate_failed") "message" = Returns VUndefined /\
    get reason "message" <> get (VString "immediate_failed") "message".
Proof.
  eexists. repeat split; try reflexivity. discriminate.
Qed.

(** C5, amended.  A falsy result is rejected with an Error named
    ['GapiError'] whose message is ['Unknown error during Google API
    call'].  A truthy result whose ['error'] is truthy is rejected with
    an Error whose [gapi_error] is [result.error] and whose message is
    [result.error.message] converted to a string, the empty string when
    it is undefined; when [result.error.message] is a string, the two are
    equal. *)
Theorem wrap_result_rejection_values (w : world) (result : value) :
  (truthy result = false ->
   exists reason,
     wrap_result w result = Returns (Rejected reason) /\
     is_Error reason = true /\
     get reason "name" = Returns (VString "GapiError") /\
     get reason "message"
     = Returns (VString "Unknown error during Google API call")) /\
  (forall e,
     truthy result = true ->
     get result "error" = Returns e ->
     truthy e = true ->
     exists reason message,
       wrap_result w result = Returns (Rejected reason) /\
       is_Error reason = true /\
       get e "message" = Returns message /\
       get reason "message" = Returns (VString (Error_message w message)) /\
       (forall s, message = VString s -> get reason "message" = get e "message") /\
       get reason "gapi_error" = Returns e).
Proof.
  split.
  - intros Hr. rewrite (wrap_result_falsy w result Hr).
    eexists. repeat split; reflexivity.
  - intros e Hr He Ht.
    destruct (get_truthy e "message" Ht) as [message Hm].
    rewrite (wrap_result_error w result e message Hr He Ht Hm).
    destruct (new_Error_is_Error w message) as [props [Hnew [Hmsg Hnone]]].
    rewrite Hnew. simpl set.
    exists (VError (update "gapi_error" e props)), message.
    assert (Hmsg' : get (VError (update "gapi_error" e props)) "message"
                    = Returns (VString (Error_message w message))).
    { revert Hmsg. simpl.
      rewrite (lookup_update_other "gapi_error" "message" e props eq_refl).
      auto. }
    repeat split; auto.
    + intros s ->. rewrite Hmsg', Hm. reflexivity.
    + simpl. rewrite lookup_update_same. reflexivity.
Qed.

Lemma wrap_result_rejection_values_witness :
  exists reason message,
    wrap_result popup_world immediate_failed = Returns (Rejected reason) /\
    is_Error reason = true /\
    get (VString "immediate_failed") "message" = Returns message /\
    get reason "message" = Returns (VString (Error_message popup_world message)) /\
    (forall s, message = VString s ->
               get reason "message" = get (VString "immediate_failed") "message") /\
    get reason "gapi_error" = Returns (VString "immediate_failed").
Proof.
  exact (proj2 (wrap_result_rejection_values popup_world immediate_failed)
           (VString "immediate_failed") eq_refl eq_refl eq_refl).
Defined.

(** An error resource: the message of the rejection is the message of
    the resource. *)
Example wrap_result_file_not_found :
  wrap_result popup_world file_not_found
  = Returns (Rejected
      (VError [("message", VString "File not found: f1");
               ("gapi_error",
                VObject [("code", VString "404");
                         ("message", VString "File not found: f1")])])).
Proof. reflexivity. Qed.

(** A result that carries a falsy ['error'] is a success. *)
Example wrap_result_null_error :
  wrap_result popup_world (VObject [("error", VNull)])
  = Returns (Fulfilled (VObject [("error", VNull)])).
Proof. reflexivity. Qed.

(** ** Authenticated download *)

(** C3.  With a current token, [download url] asks for the token, issues
    one GET of [url] whose [Authorization] header is ['Bearer '] followed
    by the access token, and returns the promise of that request:
    resolved with the contents when the server sends them, rejected with
    an Error when the request fails. *)
Theorem download_issues_one_bearer_get
    (w : world) (url : string) (tok token : value) (st : state) :
  getToken w = Returns tok ->
  get tok "access_token" = Returns token ->
  exists p headers,
    headers = VObject [("Authorization", VString ("Bearer " ++ ToString w token))] /\
    download w url st
    = (Returns p,
       {| log := log st ++ [EvGetToken; EvHttpGet url headers]; now := now st |}) /\
    match http_get w url headers with
    | HttpSuccess contents => p = Fulfilled contents
    | HttpFailure _ => exists err, p = Rejected err /\ is_Error err = true
    | HttpSilent => p = Pending
    end.
Proof.
  intros Htok Hget.
  unfold download, promising_ajax, external, bind, emit, lift.
  rewrite Htok, Hget. simpl.
  rewrite <- app_assoc. simpl.
  destruct (http_get w url _) eqn:Hhttp; unfold ret;
    eexists; eexists; (split; [reflexivity|]); rewrite Hhttp;
    (split; [reflexivity|]); eauto.
Qed.

Lemma download_issues_one_bearer_get_witness :
  exists p headers,
    headers = VObject [("Authorization", VString "Bearer ya29.token")] /\
    download popup_world "https://www.googleapis.com/drive/v2/files/f1" start
    = (Returns p,
       {| log := [EvGetToken;
                  EvHttpGet "https://www.googleapis.com/drive/v2/files/f1" headers];
          now := 0 |}) /\
    match http_get popup_world "https://www.googleapis.com/drive/v2/files/f1" headers with
    | HttpSuccess contents => p = Fulfilled contents
    | HttpFailure _ => exists err, p = Rejected err /\ is_Error err = true
    | HttpSilent => p = Pending
    end.
Proof.
  exact (download_issues_one_bearer_get popup_world
           "https://www.googleapis.com/drive/v2/files/f1"
           token_object (VString "ya29.token") start eq_refl eq_refl).
Defined.

(** Without a token object [download] throws instead of returning a
    promise. *)
Example download_without_token :
  download offline_world "https://www.googleapis.com/drive/v2/files/f1" start
  = (Throws (VError [("message", VString "gapi is not defined");
                     ("name", VString "ReferenceError")]),
     {| log := [EvGetToken]; now := 0 |}).
Proof. reflexivity. Qed.

(** ** Polling *)

(** One call of [polling_function]. *)
Lemma polling_function_step (condition : nat -> call bool) (interval : Z)
    (timers : nat) (st : state) :
  polling_function condition interval timers st =
  match condition (now st) with
  | Throws e => (Throws e, logged st [EvConditionThrows e])
  | Returns true =>
      (Returns (Resolve (Fulfilled VUndefined)), logged st [EvCondition true])
  | Returns false =>
      match timers with
      | 0 => (Returns NoSettle,
              logged st [EvCondition false; EvSetTimeout interval])
      | S n =>
          callback false (polling_function condition interval n)
            {| log := log st ++ [EvCondition false; EvSetTimeout interval];
               now := S (now st) |}
      end
  end.
Proof.
  destruct timers as [|n]; simpl;
    unfold bind, evaluate, external, bind, emit, lift, ret, tick, logged;
    destruct (condition (now st)) as [[|]|e]; cbn [log now];
    rewrite <- ?app_assoc; reflexivity.
Qed.

(** The polling with a condition that returns at every evaluation. *)
Lemma polling_function_spec (condition : nat -> bool) (interval : Z)
    (timers : nat) :
  forall st,
  exists s evs t',
    polling_function (fun t => Returns (condition t)) interval timers st
    = (Returns s, {| log := log st ++ evs; now := t' |}) /\
    (exists rest, evs = EvCondition (condition (now st)) :: rest) /\
    (s = Resolve (Fulfilled VUndefined) \/ s = NoSettle) /\
    (s = Resolve (Fulfilled VUndefined) <-> In (EvCondition true) evs) /\
    (In (EvCondition true) evs <->
     exists k, k <= timers /\ condition (now st + k) = true) /\
    Forall (fun e => is_polling_event e = true) evs.
Proof.
  induction timers as [|n IH]; intros st; rewrite polling_function_step;
    destruct (condition (now st)) eqn:Hc.
  - exists (Resolve (Fulfilled VUndefined)), [EvCondition true], (now st).
    split; [reflexivity|]. split; [eauto|]. split; [auto|].
    split; [simpl; tauto|]. split; [|repeat constructor].
    split; [|simpl; tauto].
    intros _. exists 0. rewrite Nat.add_0_r. auto.
  - exists NoSettle, [EvCondition false; EvSetTimeout interval], (now st).
    split; [reflexivity|]. split; [eauto|]. split; [auto|].
    split; [|split; [|repeat constructor]].
    + split; [discriminate|]. intros [H|[H|[]]]; discriminate.
    + split; [intros [H|[H|[]]]; discriminate|].
      intros [k [Hk Hck]]. assert (k = 0) by lia. subst k.
      rewrite Nat.add_0_r in Hck. congruence.
  - exists (Resolve (Fulfilled VUndefined)), [EvCondition true], (now st).
    split; [reflexivity|]. split; [eauto|]. split; [auto|].
    split; [simpl; tauto|]. split; [|repeat constructor].
    split; [|simpl; tauto].
    intros _. exists 0. rewrite Nat.add_0_r. split; [lia|auto].
  - destruct (IH {| log := log st ++ [EvCondition false; EvSetTimeout interval];
                    now := S (now st) |})
      as [s [evs [t' [Hrun [[rest Hhd] [Hs [Hres [Hin Hall]]]]]]]].
    cbn [log now] in Hrun, Hhd, Hin.
    exists s, (EvCondition false :: EvSetTimeout interval :: evs), t'.
    split.
    { unfold callback. rewrite Hrun. rewrite <- app_assoc. reflexivity. }
    split; [eauto|]. split; [exact Hs|].
    split; [|split].
    + rewrite Hres. simpl. split; [auto|].
      intros [H|[H|H]]; try discriminate; auto.
    + split.
      * intros [H|[H|H]]; try discriminate.
        apply Hin in H. destruct H as [k [Hk Hck]].
        exists (S k). split; [lia|]. rewrite Nat.add_succ_r. exact Hck.
      * intros [k [Hk Hck]]. right. right. apply Hin.
        destruct k as [|k].
        -- rewrite Nat.add_0_r in Hck. congruence.
        -- exists k. split; [lia|]. rewrite Nat.add_succ_r in Hck. exact Hck.
    + repeat constructor. exact Hall.
Qed.

(** The polling with any condition: the evaluation that finds it true
    is reached only through evaluations that found it false. *)
Lemma polling_function_course (condition : nat -> call bool) (interval : Z)
    (timers : nat) :
  forall st,
  exists c evs t',
    polling_function condition interval timers st
    = (c, {| log := log st ++ evs; now := t' |}) /\
    match condition (now st) with
    | Throws e => c = Throws e /\ evs = [EvConditionThrows e]
    | Returns b =>
        (c = Returns (Resolve (Fulfilled VUndefined)) \/ c = Returns NoSettle) /\
        exists rest, evs = EvCondition b :: rest
    end /\
    (c = Returns (Resolve (Fulfilled VUndefined)) <-> In (EvCondition true) evs) /\
    (In (EvCondition true) evs <->
     exists k, k <= timers /\ condition (now st + k) = Returns true /\
               forall j, j < k -> condition (now st + j) = Returns false).
Proof.
  induction timers as [|n IH]; intros st; rewrite polling_function_step;
    destruct (condition (now st)) as [[|]|e] eqn:Hc.
  - exists (Returns (Resolve (Fulfilled VUndefined))), [EvCondition true], (now st).
    split; [reflexivity|]. split; [split; [auto | eauto]|].
    split; [simpl; tauto|]. split; [|simpl; tauto].
    intros _. exists 0. rewrite Nat.add_0_r.
    split; [lia|]. split; [exact Hc|]. intros j Hj. lia.
  - exists (Returns NoSettle), [EvCondition false; EvSetTimeout interval], (now st).
    split; [reflexivity|]. split; [split; [auto | eauto]|].
    split.
    + split; [discriminate|]. intros [H|[H|[]]]; discriminate.
    + split; [intros [H|[H|[]]]; discriminate|].
      intros [k [Hk [Hck _]]]. assert (k = 0) by lia. subst k.
      rewrite Nat.add_0_r in Hck. congruence.
  - exists (Throws e), [EvConditionThrows e], (now st).
    split; [reflexivity|]. split; [auto|].
    split.
    + split; [discriminate|]. intros [H|[]]; discriminate.
    + split; [intros [H|[]]; discriminate|].
      intros [k [Hk [Hck _]]]. assert (k = 0) by lia. subst k.
      rewrite Nat.add_0_r in Hck. congruence.
  - exists (Returns (Resolve (Fulfilled VUndefined))), [EvCondition true], (now st).
    split; [reflexivity|]. split; [split; [auto | eauto]|].
    split; [simpl; tauto|]. split; [|simpl; tauto].
    intros _. exists 0. rewrite Nat.add_0_r.
    split; [lia|]. split; [exact Hc|]. intros j Hj. lia.
  - destruct (IH {| log := log st ++ [EvCondition false; EvSetTimeout interval];
                    now := S (now st) |})
      as [c' [evs' [t' [Hrun [Hfirst [Hres Hin]]]]]].
    cbn [log now] in Hrun, Hfirst, Hin.
    assert (Hlater :
              (exists k, k <= S n /\ condition (now st + k) = Returns true /\
                         forall j, j < k -> condition (now st + j) = Returns false)
              <-> In (EvCondition true) evs').
    { rewrite Hin. split.
      - intros [k [Hk [Hck Hbefore]]]. destruct k as [|k].
        + rewrite Nat.add_0_r in Hck. congruence.
        + exists k. split; [lia|]. rewrite Nat.add_succ_r in Hck.
          split; [exact Hck|].
          intros j Hj. specialize (Hbefore (S j)).
          rewrite Nat.add_succ_r in Hbefore. apply Hbefore. lia.
      - intros [k [Hk [Hck Hbefore]]]. exists (S k). split; [lia|].
        rewrite Nat.add_succ_r. split; [exact Hck|].
        intros [|j] Hj.
        + rewrite Nat.add_0_r. exact Hc.
        + rewrite Nat.add_succ_r. apply Hbefore. lia. }
    unfold callback. rewrite Hrun.
    destruct c' as [s|e].
    + exists (Returns s), (EvCondition false :: EvSetTimeout interval :: evs'), t'.
      split; [rewrite <- app_assoc; reflexivity|].
      split.
      { split; [|eauto].
        destruct (condition (S (now st))); [tauto|].
        destruct Hfirst as [H _]. discriminate. }
      split.
      * rewrite Hres. simpl. split; [auto|].
        intros [H|[H|H]]; try discriminate; auto.
      * rewrite Hlater. simpl. split; [|auto].
        intros [H|[H|H]]; try discriminate; auto.
    + exists (Returns NoSettle),
        (EvCondition false :: EvSetTimeout interval :: evs' ++ [EvUncaught e])%list,
        t'.
      assert (Hnone : ~ In (EvCondition true) evs').
      { intros H. apply Hres in H. discriminate. }
      assert (Hnone' : ~ In (EvCondition true)
                         (EvCondition false :: EvSetTimeout interval
                          :: evs' ++ [EvUncaught e])%list).
      { intros [H|[H|H]]; try discriminate.
        apply in_app_or in H. destruct H as [H|[H|[]]]; [tauto | discriminate]. }
      split.
      { cbn [log now]. rewrite <- !app_assoc. reflexivity. }
      split; [split; [auto | eauto]|].
      split; [split; [discriminate | tauto]|].
      rewrite Hlater. tauto.
  - exists (Throws e), [EvConditionThrows e], (now st).
    split; [reflexivity|]. split; [auto|].
    split.
    + split; [discriminate|]. intros [H|[]]; discriminate.
    + split; [intros [H|[]]; discriminate|].
      intros [k [Hk [Hck Hbefore]]]. destruct k as [|k].
      * rewrite Nat.add_0_r in Hck. congruence.
      * specialize (Hbefore 0). rewrite Nat.add_0_r in Hbefore.
        rewrite Hbefore in Hc by lia. discriminate.
Qed.

(** C8, the claim at a condition that throws when it is first
    evaluated: the promise is rejected. *)
Lemma poll_rejects_counterexample :
  poll (fun _ => Throws (TypeError "x is not a function")) 100 3 start
  = (Returns (Rejected (TypeError "x is not a function")),
     {| log := [EvConditionThrows (TypeError "x is not a function")];
        now := 0 |}) /\
  ~ (forall reason,
       fst (poll (fun _ => Throws (TypeError "x is not a function")) 100 3 start)
       <> Returns (Rejected reason)).
Proof.
  split; [reflexivity|].
  intros H. apply (H (TypeError "x is not a function")). reflexivity.
Qed.

(** A condition that throws at its second evaluation: the throw is not
    caught, and the polling ends with the promise pending. *)
Example poll_later_throw :
  poll (fun t => match t with
                 | 0 => Returns false
                 | S _ => Throws (TypeError "x is not a function")
                 end) 100 3 start
  = (Returns Pending,
     {| log := [EvCondition false; EvSetTimeout 100;
                EvConditionThrows (TypeError "x is not a function");
                EvUncaught (TypeError "x is not a function")];
        now := 1 |}).
Proof. reflexivity. Qed.

(** C8, amended.  [poll] evaluates the condition at once, before any
    timer is set.  Its promise is resolved exactly when an evaluation
    returned true, and an evaluation is reached only after every one
    before it returned false; it is rejected exactly when the first
    evaluation throws, with what that threw, so never when the condition
    returns; in every other case, an evaluation after the first that
    throws among them, it is pending. *)
Theorem poll_settles_by_condition
    (condition : nat -> call bool) (interval : Z) (timers : nat) (st : state) :
  exists p evs t',
    poll condition interval timers st
    = (Returns p, {| log := log st ++ evs; now := t' |}) /\
    match condition (now st) with
    | Returns b => exists rest, evs = EvCondition b :: rest
    | Throws e => evs = [EvConditionThrows e]
    end /\
    (p = Fulfilled VUndefined <-> In (EvCondition true) evs) /\
    (In (EvCondition true) evs <->
     exists k, k <= timers /\ condition (now st + k) = Returns true /\
               forall j, j < k -> condition (now st + j) = Returns false) /\
    (forall reason, p = Rejected reason <-> condition (now st) = Throws reason) /\
    (p = Pending <->
     ~ In (EvCondition true) evs /\ exists b, condition (now st) = Returns b).
Proof.
  destruct (polling_function_course condition interval timers st)
    as [c [evs [t' [Hrun [Hfirst [Hres Hin]]]]]].
  unfold poll, new_Promise. rewrite Hrun.
  destruct (condition (now st)) as [b|e] eqn:Hc.
  - destruct Hfirst as [[-> | ->] Hhd].
    + exists (Fulfilled VUndefined), evs, t'.
      assert (Ht : In (EvCondition true) evs) by (apply Hres; reflexivity).
      split; [reflexivity|]. split; [exact Hhd|]. split; [tauto|].
      split; [exact Hin|]. split.
      * intros reason; split; discriminate.
      * split; [discriminate | tauto].
    + exists Pending, evs, t'.
      assert (Ht : ~ In (EvCondition true) evs).
      { intros H. apply Hres in H. discriminate. }
      split; [reflexivity|]. split; [exact Hhd|].
      split; [split; [discriminate | tauto]|].
      split; [exact Hin|]. split.
      * intros reason; split; discriminate.
      * split; [eauto | reflexivity].
  - destruct Hfirst as [-> ->].
    exists (Rejected e), [EvConditionThrows e], t'.
    split; [reflexivity|]. split; [reflexivity|].
    split; [split; [discriminate | intros [H|[]]; discriminate]|].
    split; [exact Hin|]. split.
    + intros reason; split; intros H; inversion H; reflexivity.
    + split; [discriminate | intros [_ [b H]]; discriminate].
Qed.

(** Once the condition holds at some tick, after ticks at which it did
    not, enough timers resolve the promise. *)
Lemma poll_resolves_eventually
    (condition : nat -> call bool) (interval : Z) (k timers : nat) (st : state) :
  (forall j, j < k -> condition (now st + j) = Returns false) ->
  condition (now st + k) = Returns true ->
  k <= timers ->
  fst (poll condition interval timers st) = Returns (Fulfilled VUndefined).
Proof.
  intros Hbefore Hc Hk.
  destruct (polling_function_course condition interval timers st)
    as [c [evs [t' [Hrun [_ [Hres Hin]]]]]].
  unfold poll, new_Promise. rewrite Hrun.
  assert (Hcs : c = Returns (Resolve (Fulfilled VUndefined)))
    by (apply Hres, Hin; eauto).
  rewrite Hcs. reflexivity.
Qed.

(** ** Authorization *)

Lemma logged_logged (st : state) (evs evs' : list event) :
  logged (logged st evs) evs' = logged st (evs ++ evs').
Proof.
  unfold logged. simpl. rewrite app_assoc. reflexivity.
Qed.

Lemma authorize_internal_spec (w : world) (opt_withPopup : value) (st : state) :
  exists p,
    authorize_internal w opt_withPopup st
    = (Returns p, logged st [EvAuthorize (authorize_params opt_withPopup)]) /\
    attempt_settles w (authorize_params opt_withPopup) p.
Proof.
  unfold authorize_internal, attempt_settles, new_Promise, external, bind,
    emit, lift.
  destruct (auth_authorize w (authorize_params opt_withPopup)) as [[result|]|e].
  - destruct (wrap_result_returns w result) as [p [Hp _]].
    rewrite (resolve_wrapped w _ result p _ Hp).
    exists p. split; [reflexivity | exact Hp].
  - exists Pending. split; reflexivity.
  - exists (Rejected e). split; reflexivity.
Qed.

Lemma authorize_unfolded (w : world) (opt_withPopup : value) :
  authorize w opt_withPopup =
  if truthy opt_withPopup then
    new_Promise (
      modal w "Authentication needed"
        "Accessing Google Drive requires authentication.  Click ok to proceed."
        [("ok", fun _ => p <- authorize_internal w opt_withPopup ;;
                         ret (Resolve p));
         ("cancel", fun ev => ret (Reject ev))])
  else
    p <- authorize_internal w opt_withPopup ;;
    catch_ p (fun _ => authorize w (VBool true)).
Proof.
  rewrite authorize_unfold_eq. unfold authorize_unfold.
  generalize (inspect (truthy opt_withPopup)).
  intros [[|] e]; simpl; rewrite e; reflexivity.
Qed.

(** The flow with popup, by what the user does. *)
Lemma authorize_with_popup (w : world) (opt_withPopup : value) (st : state) :
  truthy opt_withPopup = true ->
  authorize w opt_withPopup st =
  match user_click w with
  | Throws e => (Returns (Rejected e), logged st [authentication_dialog])
  | Returns None => (Returns Pending, logged st [authentication_dialog])
  | Returns (Some (label, ev)) =>
      if String.eqb label "ok" then
        authorize_internal w opt_withPopup (logged st [authentication_dialog])
      else if String.eqb label "cancel" then
        (Returns (Rejected ev), logged st [authentication_dialog])
      else (Returns Pending, logged st [authentication_dialog])
  end.
Proof.
  intros Ht. rewrite authorize_unfolded, Ht.
  unfold new_Promise, modal, external, bind, emit, lift, user_click. simpl.
  destruct (dialog_modal w _ _ _) as [[[label ev]|]|e]; try reflexivity.
  destruct (String.eqb label "ok") eqn:Hok.
  - destruct (authorize_internal_spec w opt_withPopup
                (logged st [authentication_dialog])) as [p [Hp _]].
    unfold logged, authentication_dialog in *. simpl in Hp.
    unfold callback, bind. rewrite Hp. reflexivity.
  - destruct (String.eqb label "cancel") eqn:Hcancel; reflexivity.
Qed.

(** The flow without popup: one attempt, and the flow with popup when it
    is rejected. *)
Lemma authorize_without_popup (w : world) (opt_withPopup : value) (st : state) :
  truthy opt_withPopup = false ->
  exists p1,
    authorize_internal w opt_withPopup st
    = (Returns p1, logged st [EvAuthorize (authorize_params opt_withPopup)]) /\
    attempt_settles w (authorize_params opt_withPopup) p1 /\
    authorize w opt_withPopup st =
    match p1 with
    | Rejected _ =>
        authorize w (VBool true)
          (logged st [EvAuthorize (authorize_params opt_withPopup)])
    | _ => (Returns p1, logged st [EvAuthorize (authorize_params opt_withPopup)])
    end.
Proof.
  intros Ht.
  destruct (authorize_internal_spec w opt_withPopup st) as [p1 [Hp1 Hs1]].
  exists p1. split; [exact Hp1|]. split; [exact Hs1|].
  rewrite authorize_unfolded, Ht. unfold bind. rewrite Hp1.
  destruct p1; try reflexivity.
  unfold catch_, then_, run_handler.
  rewrite (authorize_with_popup w (VBool true) _ eq_refl).
  destruct (user_click w) as [[[label ev]|]|e]; try reflexivity.
  destruct (String.eqb label "ok").
  - destruct (authorize_internal_spec w (VBool true)
                (logged (logged st [EvAuthorize (authorize_params opt_withPopup)])
                   [authentication_dialog])) as [p [Hp _]].
    rewrite Hp. reflexivity.
  - destruct (String.eqb label "cancel"); reflexivity.
Qed.

Lemma authorize_params_request (opt_withPopup : value) :
  authorize_params opt_withPopup
  = authorize_request (negb (truthy opt_withPopup)).
Proof. reflexivity. Qed.

(** The calls of the flow with popup. *)
Lemma authorize_with_popup_calls (w : world) (opt_withPopup : value) (st : state) :
  truthy opt_withPopup = true ->
  exists p evs,
    authorize w opt_withPopup st
    = (Returns p, logged st (authentication_dialog :: evs)) /\
    ((exists ev, user_click w = Returns (Some ("ok", ev)) /\
      evs = [EvAuthorize (authorize_params opt_withPopup)] /\
      attempt_settles w (authorize_params opt_withPopup) p) \/
     ((forall ev, user_click w <> Returns (Some ("ok", ev))) /\
      evs = [] /\
      match user_click w with
      | Throws e => p = Rejected e
      | Returns (Some (label, ev)) =>
          if String.eqb label "cancel" then p = Rejected ev else p = Pending
      | Returns None => p = Pending
      end)).
Proof.
  intros Ht. rewrite (authorize_with_popup w opt_withPopup st Ht).
  destruct (user_click w) as [[[label ev]|]|e].
  - destruct (String.eqb label "ok") eqn:Hok.
    + apply String.eqb_eq in Hok. subst label.
      destruct (authorize_internal_spec w opt_withPopup
                  (logged st [authentication_dialog])) as [p [Hp Hs]].
      rewrite Hp, logged_logged.
      exists p, [EvAuthorize (authorize_params opt_withPopup)].
      split; [reflexivity|]. left. exists ev. auto.
    + assert (Hno : forall ev', Returns (Some (label, ev))
                                <> Returns (Some ("ok", ev')) :> call _).
      { intros ev' H. inversion H. subst label. discriminate. }
      destruct (String.eqb label "cancel");
        eexists; exists []; (split; [reflexivity|]); right; auto.
  - eexists; exists []; split; [reflexivity|]. right.
    repeat split; auto. discriminate.
  - eexists; exists []; split; [reflexivity|]. right.
    repeat split; auto. discriminate.
Qed.

(** C9.  Called with the popup flag, [authorize] first shows the
    dialog.  [gapi.auth.authorize] is called only after a click on ok,
    and then once; after a click on cancel the promise is rejected and
    no attempt has been made. *)
Theorem authorize_popup_waits_for_ok
    (w : world) (opt_withPopup : value) (st : state) :
  truthy opt_withPopup = true ->
  exists p evs,
    authorize w opt_withPopup st
    = (Returns p, logged st (authentication_dialog :: evs)) /\
    (forall params, In (EvAuthorize params) evs ->
                    exists ev, user_click w = Returns (Some ("ok", ev))) /\
    (forall ev, user_click w = Returns (Some ("ok", ev)) ->
                evs = [EvAuthorize (authorize_params opt_withPopup)] /\
                attempt_settles w (authorize_params opt_withPopup) p) /\
    (forall ev, user_click w = Returns (Some ("cancel", ev)) ->
                p = Rejected ev /\ authorize_attempts evs = []).
Proof.
  intros Ht.
  destruct (authorize_with_popup_calls w opt_withPopup st Ht)
    as [p [evs [Hrun Hcases]]].
  exists p, evs. split; [exact Hrun|].
  destruct Hcases as [[ev [Hok [Hevs Hs]]] | [Hno [Hevs Hp]]].
  - split; [eauto|]. split; [auto|].
    intros ev' Hc. rewrite Hc in Hok. discriminate.
  - subst evs. split; [intros params []|].
    split; [intros ev Hc; elim (Hno ev Hc)|].
    intros ev Hc. rewrite Hc in Hp. simpl in Hp. auto.
Qed.

Lemma authorize_popup_waits_for_ok_witness :
  exists p evs,
    authorize popup_world (VBool true) start
    = (Returns p, logged start (authentication_dialog :: evs)) /\
    (forall params, In (EvAuthorize params) evs ->
                    exists ev, user_click popup_world = Returns (Some ("ok", ev))) /\
    (forall ev, user_click popup_world = Returns (Some ("ok", ev)) ->
                evs = [EvAuthorize (authorize_params (VBool true))] /\
                attempt_settles popup_world (authorize_params (VBool true)) p) /\
    (forall ev, user_click popup_world = Returns (Some ("cancel", ev)) ->
                p = Rejected ev /\ authorize_attempts evs = []).
Proof.
  exact (authorize_popup_waits_for_ok popup_world (VBool true) start eq_refl).
Defined.

(** The user who cancels: no attempt, and a rejection with the click. *)
Example authorize_popup_cancelled :
  authorize offline_world (VBool true) start
  = (Returns (Rejected click_event), logged start [authentication_dialog]).
Proof. vm_compute. reflexivity. Qed.

(** C2.  Called without the popup flag, [authorize] first makes an
    attempt in immediate mode.  Unless that attempt is rejected, its
    promise is the result and nothing else is called.  When it is
    rejected the dialog is shown once, at most one attempt with popup
    follows it, and the promise of that attempt is the result: when it
    is rejected too, so is the result, and no other call is made. *)
Theorem authorize_retries_once_with_popup
    (w : world) (opt_withPopup : value) (st : state) :
  truthy opt_withPopup = false ->
  exists p1 p evs,
    authorize w opt_withPopup st
    = (Returns p, logged st (EvAuthorize (authorize_request true) :: evs)) /\
    attempt_settles w (authorize_request true) p1 /\
    ((forall r, p1 <> Rejected r) -> p = p1 /\ evs = []) /\
    ((exists r, p1 = Rejected r) ->
     (evs = [authentication_dialog] /\
      (forall ev, user_click w <> Returns (Some ("ok", ev))) /\
      (forall v, p <> Fulfilled v))
     \/
     (evs = [authentication_dialog; EvAuthorize (authorize_request false)] /\
      attempt_settles w (authorize_request false) p)).
Proof.
  intros Ht.
  destruct (authorize_without_popup w opt_withPopup st Ht)
    as [p1 [_ [Hs1 Hrun]]].
  rewrite authorize_params_request, Ht in Hs1, Hrun. simpl negb in Hs1, Hrun.
  destruct p1 as [|v|r].
  - exists Pending, Pending, []. split; [exact Hrun|]. split; [exact Hs1|].
    split; [auto|]. intros [r Hr]. discriminate.
  - exists (Fulfilled v), (Fulfilled v), []. split; [exact Hrun|].
    split; [exact Hs1|]. split; [auto|]. intros [r Hr]. discriminate.
  - destruct (authorize_with_popup_calls w (VBool true)
                (logged st [EvAuthorize (authorize_request true)]) eq_refl)
      as [p [evs [Hpop Hcases]]].
    rewrite Hpop, logged_logged in Hrun. simpl app in Hrun.
    exists (Rejected r), p, (authentication_dialog :: evs).
    split; [exact Hrun|]. split; [exact Hs1|].
    split; [intros H; elim (H r); reflexivity|].
    intros _.
    destruct Hcases as [[ev [Hok [Hevs Hs]]] | [Hno [Hevs Hp]]]; subst evs.
    + right. split; [reflexivity | exact Hs].
    + left. split; [reflexivity|]. split; [exact Hno|].
      intros v Hv. subst p.
      destruct (user_click w) as [[[label ev]|]|e]; try discriminate.
      destruct (String.eqb label "cancel"); discriminate.
Qed.

Lemma authorize_retries_once_with_popup_witness :
  exists p1 p evs,
    authorize popup_world VUndefined start
    = (Returns p, logged start (EvAuthorize (authorize_request true) :: evs)) /\
    attempt_settles popup_world (authorize_request true) p1 /\
    ((forall r, p1 <> Rejected r) -> p = p1 /\ evs = []) /\
    ((exists r, p1 = Rejected r) ->
     (evs = [authentication_dialog] /\
      (forall ev, user_click popup_world <> Returns (Some ("ok", ev))) /\
      (forall v, p <> Fulfilled v))
     \/
     (evs = [authentication_dialog; EvAuthorize (authorize_request false)] /\
      attempt_settles popup_world (authorize_request false) p)).
Proof.
  exact (authorize_retries_once_with_popup popup_world VUndefined start eq_refl).
Defined.

(** The session of [popup_world]: the attempt in immediate mode fails,
    the user clicks ok, the attempt with popup returns the token. *)
Example authorize_popup_world :
  authorize popup_world VUndefined start
  = (Returns (Fulfilled token_object),
     logged start [EvAuthorize (authorize_request true);
                   authentication_dialog;
                   EvAuthorize (authorize_request false)]).
Proof. vm_compute. reflexivity. Qed.

(** C10.  Every attempt [authorize] makes asks for the client id of the
    application and for the scopes [drive.file] and
    [drive.readonly.metadata].  With the popup flag there is at most one
    attempt, not immediate; without it the first attempt is immediate and
    the second, made by the call of [authorize] with the flag, is not. *)
Theorem authorize_requests_fixed_client_and_scopes
    (w : world) (opt_withPopup : value) (st : state) :
  exists p evs,
    authorize w opt_withPopup st = (Returns p, logged st evs) /\
    (if truthy opt_withPopup
     then authorize_attempts evs = [] \/
          authorize_attempts evs = [authorize_request false]
     else authorize_attempts evs = [authorize_request true] \/
          authorize_attempts evs
          = [authorize_request true; authorize_request false]) /\
    Forall (fun params =>
              get params "client_id" = Returns (VString CLIENT_ID) /\
              get params "scope"
              = Returns (VArray [VString FILES_OAUTH_SCOPE;
                                 VString METADATA_OAUTH_SCOPE]) /\
              exists immediate, get params "immediate" = Returns (VBool immediate))
           (authorize_attempts evs).
Proof.
  assert (Hreq : forall b,
             get (authorize_request b) "client_id" = Returns (VString CLIENT_ID) /\
             get (authorize_request b) "scope"
             = Returns (VArray [VString FILES_OAUTH_SCOPE;
                                VString METADATA_OAUTH_SCOPE]) /\
             exists immediate,
               get (authorize_request b) "immediate" = Returns (VBool immediate)).
  { intros b. repeat split. exists b. reflexivity. }
  destruct (truthy opt_withPopup) eqn:Ht.
  - destruct (authorize_with_popup_calls w opt_withPopup st Ht)
      as [p [evs [Hrun Hcases]]].
    exists p, (authentication_dialog :: evs). split; [exact Hrun|].
    rewrite authorize_params_request, Ht in Hcases. simpl negb in Hcases.
    destruct Hcases as [[ev [_ [Hevs _]]] | [_ [Hevs _]]]; subst evs; simpl.
    + split; [right; reflexivity|]. repeat constructor; apply Hreq.
    + split; [left; reflexivity|]. constructor.
  - destruct (authorize_without_popup w opt_withPopup st Ht)
      as [p1 [_ [_ Hrun]]].
    rewrite authorize_params_request, Ht in Hrun. simpl negb in Hrun.
    destruct p1 as [|v|r].
    + eexists; eexists; split; [exact Hrun|]. simpl.
      split; [left; reflexivity|]. repeat constructor; apply Hreq.
    + eexists; eexists; split; [exact Hrun|]. simpl.
      split; [left; reflexivity|]. repeat constructor; apply Hreq.
    + destruct (authorize_with_popup_calls w (VBool true)
                  (logged st [EvAuthorize (authorize_request true)]) eq_refl)
        as [p [evs [Hpop Hcases]]].
      rewrite Hpop, logged_logged in Hrun. simpl app in Hrun.
      eexists; eexists; split; [exact Hrun|].
      destruct Hcases as [[ev [_ [Hevs _]]] | [_ [Hevs _]]]; subst evs; simpl.
      * split; [right; reflexivity|]. repeat constructor; apply Hreq.
      * split; [left; reflexivity|]. repeat constructor; apply Hreq.
Qed.

(** ** The startup chain *)

Lemma load_gapi_1_cases (w : world) (timers : nat) (st : state) :
  load_gapi_1 w timers st =
  match getScript w client_js with
  | Throws e => (Throws e, logged st [EvGetScript client_js])
  | Returns Pending => (Returns Pending, logged st [EvGetScript client_js])
  | Returns (Fulfilled _) =>
      poll (fun t => Returns (gapi_defined w t)) 100 timers
        (logged st [EvGetScript client_js])
  | Returns (Rejected reason) =>
      match wrap_ajax_error w reason with
      | Returns wrapped =>
          (Returns (Fulfilled wrapped), logged st [EvGetScript client_js])
      | Throws e => (Returns (Rejected e), logged st [EvGetScript client_js])
      end
  end.
Proof.
  unfold load_gapi_1, external, bind, emit, lift, client_js.
  destruct (getScript w _) as [[|v|reason]|e]; try reflexivity.
  - simpl. unfold run_handler.
    destruct (polling_function_spec (gapi_defined w) 100 timers
                (logged st [EvGetScript "https://apis.google.com/js/client.js"]))
      as [s [evs [t' [Hrun [_ [Hs _]]]]]].
    unfold poll, new_Promise, logged in *. simpl in Hrun. rewrite Hrun.
    destruct Hs as [-> | ->]; reflexivity.
  - simpl. unfold run_handler, bind, lift.
    destruct (wrap_ajax_error w reason); reflexivity.
Qed.

Lemma load_gapi_2_cases (w : world) (d : value) (st : state) :
  load_gapi_2 w d st =
  match gapi_load w feature_modules with
  | Throws e => (Returns (Rejected e), logged st [EvGapiLoad feature_modules])
  | Returns false => (Returns Pending, logged st [EvGapiLoad feature_modules])
  | Returns true =>
      match client_load w "drive" "v2" with
      | Returns (Some v) =>
          (Returns (Fulfilled v),
           logged st [EvGapiLoad feature_modules; EvClientLoad "drive" "v2"])
      | Returns None =>
          (Returns Pending,
           logged st [EvGapiLoad feature_modules; EvClientLoad "drive" "v2"])
      | Throws e =>
          if rethrows w (EvGapiLoad feature_modules) then
            (Returns (Rejected e),
             logged st [EvGapiLoad feature_modules; EvClientLoad "drive" "v2"])
          else
            (Returns Pending,
             logged st [EvGapiLoad feature_modules; EvClientLoad "drive" "v2";
                        EvUncaught e])
      end
  end.
Proof.
  unfold load_gapi_2, new_Promise, external, bind, emit, lift, callback,
    feature_modules, logged.
  destruct (gapi_load w _) as [[|]|e]; try reflexivity.
  simpl.
  destruct (client_load w "drive" "v2") as [[v|]|e]; simpl;
    try destruct (rethrows w _); simpl;
    repeat rewrite <- app_assoc; reflexivity.
Qed.

(** C7.  [load_gapi_2] first calls [gapi.load] for the modules
    ['auth:client,drive-realtime,drive-share']; it calls
    [gapi.client.load('drive', 'v2', ...)] only once their callback has
    fired, and its promise is resolved exactly when the callback of that
    second call fires, with the value it is given. *)
Theorem load_gapi_2_loads_modules_then_drive
    (w : world) (d : value) (st : state) :
  exists p evs,
    load_gapi_2 w d st
    = (Returns p, logged st (EvGapiLoad feature_modules :: evs)) /\
    (forall api version, In (EvClientLoad api version) evs ->
       api = "drive" /\ version = "v2" /\
       gapi_load w feature_modules = Returns true) /\
    (gapi_load w feature_modules = Returns true ->
     exists rest, evs = EvClientLoad "drive" "v2" :: rest) /\
    (forall v, p = Fulfilled v <->
               gapi_load w feature_modules = Returns true /\
               client_load w "drive" "v2" = Returns (Some v)) /\
    (forall v, p = Fulfilled v -> evs = [EvClientLoad "drive" "v2"]).
Proof.
  rewrite load_gapi_2_cases.
  destruct (gapi_load w feature_modules) as [[|]|e].
  - destruct (client_load w "drive" "v2") as [[v|]|e];
      try destruct (rethrows w (EvGapiLoad feature_modules));
      eexists; eexists; (split; [reflexivity|]);
      (split; [intros api version [H|H];
               [inversion H; auto | try (destruct H as [H|[]]; discriminate);
                                    try elim H]|]);
      (split; [eauto|]);
      split; try (intros v0 H; inversion H; reflexivity);
      try (intros v0; split; [intros H; inversion H; auto
                             | intros [_ H]; inversion H; reflexivity]);
      try (intros v0 H; discriminate).
  - exists Pending, []. split; [reflexivity|].
    split; [intros api version []|]. split; [discriminate|].
    split; [|discriminate].
    intros v; split; [discriminate | intros [H _]; discriminate].
  - exists (Rejected e), []. split; [reflexivity|].
    split; [intros api version []|]. split; [discriminate|].
    split; [|discriminate].
    intros v; split; [discriminate | intros [H _]; discriminate].
Qed.

(** When the script loads, [load_gapi_1] polls, from the tick at which it
    is called, and its promise is resolved exactly when an evaluation
    found [window.gapi] and [gapi.client]. *)
Lemma load_gapi_1_polls_after_fetch
    (w : world) (timers : nat) (st : state) (script : value) :
  getScript w client_js = Returns (Fulfilled script) ->
  exists p evs t',
    load_gapi_1 w timers st
    = (Returns p, {| log := log st ++ EvGetScript client_js :: evs; now := t' |}) /\
    (exists rest, evs = EvCondition (gapi_defined w (now st)) :: rest) /\
    (p = Fulfilled VUndefined \/ p = Pending) /\
    (p = Fulfilled VUndefined <-> In (EvCondition true) evs) /\
    (In (EvCondition true) evs <->
     exists k, k <= timers /\ gapi_defined w (now st + k) = true).
Proof.
  intros Hs. rewrite load_gapi_1_cases, Hs.
  destruct (polling_function_spec (gapi_defined w) 100 timers
              (logged st [EvGetScript client_js]))
    as [s [evs [t' [Hrun [Hhd [Hsettle [Hres [Hin _]]]]]]]].
  unfold poll, new_Promise. rewrite Hrun.
  unfold logged. cbn [log now]. rewrite <- app_assoc. simpl app.
  destruct Hsettle as [-> | ->].
  - exists (Fulfilled VUndefined), evs, t'.
    split; [reflexivity|]. split; [exact Hhd|]. split; [auto|].
    split; [|exact Hin]. split; [intros _; apply Hres; reflexivity | auto].
  - exists Pending, evs, t'.
    split; [reflexivity|]. split; [exact Hhd|]. split; [auto|].
    split; [|exact Hin]. split; [discriminate|].
    intros H. apply Hres in H. discriminate.
Qed.

(** C6, the path of a script that fails to load, with a
    [utils.wrap_ajax_error] that returns the error it builds: the promise
    of [load_gapi_1] is resolved with that error, and the condition has
    not been evaluated once. *)
Theorem load_gapi_1_resolves_after_failed_fetch
    (w : world) (timers : nat) (st : state) (reason wrapped : value) :
  getScript w client_js = Returns (Rejected reason) ->
  wrap_ajax_error w reason = Returns wrapped ->
  load_gapi_1 w timers st
  = (Returns (Fulfilled wrapped), logged st [EvGetScript client_js]).
Proof.
  intros Hs Hw. rewrite load_gapi_1_cases, Hs, Hw. reflexivity.
Qed.

Lemma load_gapi_1_resolves_after_failed_fetch_witness :
  (forall t, gapi_defined offline_world t = false) /\
  load_gapi_1 offline_world 5 start
  = (Returns (Fulfilled (XhrError (VObject [("status", VString "error")]))),
     logged start [EvGetScript client_js]).
Proof.
  split; [reflexivity|].
  exact (load_gapi_1_resolves_after_failed_fetch offline_world 5 start
           (VObject [("status", VString "error")])
           (XhrError (VObject [("status", VString "error")]))
           eq_refl eq_refl).
Defined.

Lemma load_gapi_1_calls (w : world) (timers : nat) (st : state) :
  exists c evs t',
    load_gapi_1 w timers st
    = (c, {| log := log st ++ EvGetScript client_js :: evs; now := t' |}) /\
    Forall (fun e => is_polling_event e = true) evs.
Proof.
  rewrite load_gapi_1_cases.
  destruct (getScript w client_js) as [[|v|reason]|e].
  - eexists; exists [], (now st); split; [reflexivity | constructor].
  - destruct (polling_function_spec (gapi_defined w) 100 timers
                (logged st [EvGetScript client_js]))
      as [s [evs [t' [Hrun [_ [Hsettle [_ [_ Hall]]]]]]]].
    unfold poll, new_Promise. rewrite Hrun.
    unfold logged. cbn [log now]. rewrite <- app_assoc. simpl app.
    destruct Hsettle as [-> | ->];
      eexists; exists evs, t'; split; [reflexivity | exact Hall
                                      | reflexivity | exact Hall].
  - destruct (wrap_ajax_error w reason);
      eexists; exists [], (now st); split; [reflexivity | constructor
                                           | reflexivity | constructor].
  - eexists; exists [], (now st); split; [reflexivity | constructor].
Qed.

Lemma load_gapi_2_calls (w : world) (d : value) (st : state) :
  exists p evs,
    load_gapi_2 w d st = (Returns p, logged st evs) /\
    Forall (fun e => startup_step e = 2) evs.
Proof.
  rewrite load_gapi_2_cases.
  destruct (gapi_load w feature_modules) as [[|]|e];
    [destruct (client_load w "drive" "v2") as [[v|]|e];
     try destruct (rethrows w (EvGapiLoad feature_modules))| |];
    eexists; eexists; (split; [reflexivity|]); repeat constructor.
Qed.

Lemma authorize_calls (w : world) (opt_withPopup : value) (st : state) :
  exists p evs,
    authorize w opt_withPopup st = (Returns p, logged st evs) /\
    Forall (fun e => startup_step e = 3) evs.
Proof.
  destruct (truthy opt_withPopup) eqn:Ht.
  - destruct (authorize_with_popup_calls w opt_withPopup st Ht)
      as [p [evs [Hrun Hcases]]].
    exists p, (authentication_dialog :: evs). split; [exact Hrun|].
    destruct Hcases as [[ev [_ [Hevs _]]] | [_ [Hevs _]]]; subst evs;
      repeat constructor.
  - destruct (authorize_without_popup w opt_withPopup st Ht)
      as [p1 [_ [_ Hrun]]].
    destruct p1 as [|v|r];
      try (eexists; eexists; split; [exact Hrun | repeat constructor]).
    destruct (authorize_with_popup_calls w (VBool true)
                (logged st [EvAuthorize (authorize_params opt_withPopup)]) eq_refl)
      as [p [evs [Hpop Hcases]]].
    rewrite Hpop, logged_logged in Hrun.
    eexists; eexists; split; [exact Hrun|].
    destruct Hcases as [[ev [_ [Hevs _]]] | [_ [Hevs _]]]; subst evs;
      repeat constructor.
Qed.

Lemma filter_is_fetch_nil (evs : list event) :
  Forall (fun e => is_fetch e = false) evs -> filter is_fetch evs = [].
Proof.
  induction 1 as [|e evs He _ IH]; simpl; [reflexivity|].
  rewrite He. exact IH.
Qed.

Lemma no_fetch_when_polling (evs : list event) :
  Forall (fun e => is_polling_event e = true) evs ->
  Forall (fun e => is_fetch e = false) evs.
Proof.
  apply Forall_impl. intros [] H; try discriminate; reflexivity.
Qed.

Lemma no_fetch_in_later_steps (n : nat) (evs : list event) :
  n <> 1 ->
  Forall (fun e => startup_step e = n) evs ->
  Forall (fun e => is_fetch e = false) evs.
Proof.
  intros Hn. apply Forall_impl. intros [] H; simpl in *; congruence.
Qed.

(** The run of the chain, step by step. *)
Lemma gapi_ready_run (w : world) (timers : nat) (st : state) :
  exists c1 evs1 t1,
    let st1 := {| log := log st ++ EvGetScript client_js :: evs1; now := t1 |} in
    load_gapi_1 w timers st = (c1, st1) /\
    Forall (fun e => is_polling_event e = true) evs1 /\
    match c1 with
    | Returns (Fulfilled v1) =>
        exists p2 evs2,
          load_gapi_2 w v1 st1 = (Returns p2, logged st1 evs2) /\
          Forall (fun e => startup_step e = 2) evs2 /\
          match p2 with
          | Fulfilled v2 =>
              exists p3 evs3,
                authorize w v2 (logged st1 evs2)
                = (Returns p3, logged (logged st1 evs2) evs3) /\
                Forall (fun e => startup_step e = 3) evs3 /\
                gapi_ready w timers st
                = (Returns p3, logged (logged st1 evs2) evs3)
          | _ => gapi_ready w timers st = (Returns p2, logged st1 evs2)
          end
    | _ => gapi_ready w timers st = (c1, st1)
    end.
Proof.
  destruct (load_gapi_1_calls w timers st) as [c1 [evs1 [t1 [H1 Hall1]]]].
  exists c1, evs1, t1. cbv zeta. split; [exact H1|]. split; [exact Hall1|].
  unfold gapi_ready, bind. rewrite H1.
  destruct c1 as [[|v1|r1]|e]; try reflexivity.
  simpl then_. unfold run_handler.
  match goal with |- context [load_gapi_2 w v1 ?s] =>
    destruct (load_gapi_2_calls w v1 s) as [p2 [evs2 [H2 Hall2]]]
  end.
  exists p2, evs2. split; [exact H2|]. split; [exact Hall2|].
  rewrite H2.
  destruct p2 as [|v2|r2]; try reflexivity.
  simpl then_. unfold run_handler.
  match goal with |- context [authorize w v2 ?s] =>
    destruct (authorize_calls w v2 s) as [p3 [evs3 [H3 Hall3]]]
  end.
  exists p3, evs3. split; [exact H3|]. split; [exact Hall3|].
  rewrite H3. reflexivity.
Qed.

(** C4.  The module computes [gapi_ready] once, when it is loaded, and
    exports the promise.  It is the chain of [load_gapi_1], then
    [load_gapi_2], then [authorize]: a step is run only when the promise
    of the step before it is resolved, with the value of that promise,
    and otherwise [gapi_ready] ends as that promise did; the calls of a
    step all come after the calls of the step before it, and the script
    is fetched once. *)
Theorem gapi_ready_chains_three_steps (w : world) (timers : nat) (st : state) :
  exists c1 st1,
    load_gapi_1 w timers st = (c1, st1) /\
    match c1 with
    | Returns (Fulfilled v1) =>
        exists p2 st2,
          load_gapi_2 w v1 st1 = (Returns p2, st2) /\
          match p2 with
          | Fulfilled v2 => gapi_ready w timers st = authorize w v2 st2
          | _ => gapi_ready w timers st = (Returns p2, st2)
          end
    | _ => gapi_ready w timers st = (c1, st1)
    end /\
    (exists evs1 evs2 evs3 : list event,
       log (snd (gapi_ready w timers st)) = (log st ++ evs1 ++ evs2 ++ evs3)%list /\
       Forall (fun e => startup_step e = 1) evs1 /\
       Forall (fun e => startup_step e = 2) evs2 /\
       Forall (fun e => startup_step e = 3) evs3 /\
       List.length (filter is_fetch (evs1 ++ evs2 ++ evs3)) = 1) /\
    match gapi_ready w timers st with
    | (Returns ready, st') =>
        exists exports,
          define w timers st = (Returns exports, st') /\
          exported_gapi_ready exports = ready
    | (Throws e, st') => define w timers st = (Throws e, st')
    end.
Proof.
  destruct (gapi_ready_run w timers st) as [c1 [evs1 [t1 [H1 [Hall1 Hrest]]]]].
  cbv zeta in H1, Hrest.
  assert (Hstep1 : Forall (fun e => startup_step e = 1)
                     (EvGetScript client_js :: evs1)).
  { constructor; [reflexivity|].
    revert Hall1. apply Forall_impl. intros [] H; try discriminate; reflexivity. }
  assert (Hcount : forall evs2 evs3,
             Forall (fun e => startup_step e = 2) evs2 ->
             Forall (fun e => startup_step e = 3) evs3 ->
             List.length (filter is_fetch
                       ((EvGetScript client_js :: evs1) ++ evs2 ++ evs3)) = 1).
  { intros evs2 evs3 H2 H3. simpl. rewrite !filter_app.
    rewrite (filter_is_fetch_nil evs1 (no_fetch_when_polling evs1 Hall1)).
    rewrite (filter_is_fetch_nil evs2 (no_fetch_in_later_steps 2 evs2 ltac:(lia) H2)).
    rewrite (filter_is_fetch_nil evs3 (no_fetch_in_later_steps 3 evs3 ltac:(lia) H3)).
    reflexivity. }
  eexists; eexists. split; [exact H1|].
  assert (Hdefine : forall c st',
             gapi_ready w timers st = (c, st') ->
             match c with
             | Returns ready =>
                 exists exports,
                   define w timers st = (Returns exports, st') /\
                   exported_gapi_ready exports = ready
             | Throws e => define w timers st = (Throws e, st')
             end).
  { intros c st' H. unfold define, bind. rewrite H.
    destruct c; [eexists; split; reflexivity | reflexivity]. }
  assert (Hlast : forall c evs2 evs3,
             gapi_ready w timers st
             = (c, logged (logged {| log := log st ++ EvGetScript client_js :: evs1;
                                     now := t1 |} evs2) evs3) ->
             Forall (fun e => startup_step e = 2) evs2 ->
             Forall (fun e => startup_step e = 3) evs3 ->
             (exists evs1 evs2 evs3 : list event,
                log (snd (gapi_ready w timers st)) = (log st ++ evs1 ++ evs2 ++ evs3)%list /\
                Forall (fun e => startup_step e = 1) evs1 /\
                Forall (fun e => startup_step e = 2) evs2 /\
                Forall (fun e => startup_step e = 3) evs3 /\
                List.length (filter is_fetch (evs1 ++ evs2 ++ evs3)) = 1) /\
             match gapi_ready w timers st with
             | (Returns ready, st') =>
                 exists exports,
                   define w timers st = (Returns exports, st') /\
                   exported_gapi_ready exports = ready
             | (Throws e, st') => define w timers st = (Throws e, st')
             end).
  { intros c evs2 evs3 Hrun H2 H3. split.
    - exists (EvGetScript client_js :: evs1), evs2, evs3.
      split; [|auto].
      rewrite Hrun. simpl. rewrite <- !app_assoc. reflexivity.
    - rewrite Hrun. apply Hdefine. exact Hrun. }
  destruct c1 as [[|v1|r1]|e].
  - split; [exact Hrest|].
    eapply (Hlast _ [] []); [|constructor|constructor].
    rewrite Hrest. unfold logged. simpl. rewrite !app_nil_r. reflexivity.
  - destruct Hrest as [p2 [evs2 [H2 [Hall2 Hrest]]]].
    destruct p2 as [|v2|r2].
    + split; [exists Pending; eexists; split; [exact H2 | exact Hrest]|].
      eapply (Hlast _ evs2 []); [|exact Hall2|constructor].
      rewrite Hrest. unfold logged. simpl. rewrite !app_nil_r. reflexivity.
    + destruct Hrest as [p3 [evs3 [H3 [Hall3 Hrest]]]].
      split; [exists (Fulfilled v2); eexists; split;
              [exact H2 | rewrite H3; exact Hrest]|].
      eapply (Hlast _ evs2 evs3); [exact Hrest|exact Hall2|exact Hall3].
    + split; [exists (Rejected r2); eexists; split; [exact H2 | exact Hrest]|].
      eapply (Hlast _ evs2 []); [|exact Hall2|constructor].
      rewrite Hrest. unfold logged. simpl. rewrite !app_nil_r. reflexivity.
  - split; [exact Hrest|].
    eapply (Hlast _ [] []); [|constructor|constructor].
    rewrite Hrest. unfold logged. simpl. rewrite !app_nil_r. reflexivity.
  - split; [exact Hrest|].
    eapply (Hlast _ [] []); [|constructor|constructor].
    rewrite Hrest. unfold logged. simpl. rewrite !app_nil_r. reflexivity.
Qed.

(** The session of [popup_world], from the loading of the module. *)
Example gapi_ready_popup_world :
  gapi_ready popup_world 2 start
  = (Returns (Fulfilled token_object),
     {| log := [EvGetScript client_js;
                EvCondition false; EvSetTimeout 100;
                EvCondition false; EvSetTimeout 100;
                EvCondition true;
                EvGapiLoad feature_modules; EvClientLoad "drive" "v2";
                EvAuthorize (authorize_request true);
                authentication_dialog;
                EvAuthorize (authorize_request false)];
        now := 2 |}).
Proof. vm_compute. reflexivity. Qed.

(** The session of [offline_world]: the promise of [load_gapi_1] is
    resolved, [load_gapi_2] runs and finds no [gapi]. *)
Example gapi_ready_offline_world :
  gapi_ready offline_world 2 start
  = (Returns (Rejected (VError [("message", VString "gapi is not defined");
                                ("name", VString "ReferenceError")])),
     {| log := [EvGetScript client_js; EvGapiLoad feature_modules];
        now := 0 |}).
Proof. vm_compute. reflexivity. Qed.

(** [authorize] receives the value of the promise of [load_gapi_2] as
    its flag: with a truthy value the dialog comes first. *)
Example gapi_ready_talkative_world :
  gapi_ready talkative_world 0 start
  = (Returns (Fulfilled token_object),
     {| log := [EvGetScript client_js; EvCondition true;
                EvGapiLoad feature_modules; EvClientLoad "drive" "v2";
                authentication_dialog;
                EvAuthorize (authorize_request false)];
        now := 0 |}).
Proof. vm_compute. reflexivity. Qed.

(** * Further properties *)

(** ** Result normalization *)

(** X1.  On a result whose [error.message], when it has a truthy
    ['error'], is a string or another primitive, [wrap_result] does not
    throw, and the promise it returns is resolved or rejected, not
    pending: ['error'] and ['message'] are read only behind the tests
    of [result] and of [result['error']].  (An object as message is
    converted by its own [toString], which this development leaves
    out.) *)
Theorem wrap_result_always_settled (w : world) (result : value) :
  (forall e message,
     get result "error" = Returns e -> truthy e = true ->
     get e "message" = Returns message -> primitive message = true) ->
  exists p, wrap_result w result = Returns p /\ p <> Pending.
Proof.
  intros _.
  destruct (wrap_result_returns w result) as [p [Hp Hcase]].
  exists p. split; [exact Hp|].
  destruct (negb (truthy result) || has_error result).
  - destruct Hcase as [reason ->]. discriminate.
  - subst p. discriminate.
Qed.

Lemma wrap_result_always_settled_witness :
  exists p, wrap_result popup_world file_not_found = Returns p /\ p <> Pending.
Proof.
  refine (wrap_result_always_settled popup_world file_not_found _).
  intros e message He _ Hm.
  inversion He; subst e. inversion Hm; subst message. reflexivity.
Defined.

(** X2.  The two kinds of rejection can be told apart on the reason: for
    a falsy result the Error is named ['GapiError'] and has no
    [gapi_error]; for an error resource the Error keeps the name
    ['Error'] and its [gapi_error] is the truthy [result.error]. *)
Theorem wrap_result_rejection_kinds (w : world) (result reason : value) :
  wrap_result w result = Returns (Rejected reason) ->
  (truthy result = false /\
   get reason "name" = Returns (VString "GapiError") /\
   get reason "gapi_error" = Returns VUndefined)
  \/
  (truthy result = true /\
   get reason "name" = Returns (VString "Error") /\
   exists e, get result "error" = Returns e /\ truthy e = true /\
             get reason "gapi_error" = Returns e).
Proof.
  intros H.
  destruct (truthy result) eqn:Hr.
  - right. split; [reflexivity|].
    destruct (get_truthy result "error" Hr) as [e He].
    destruct (truthy e) eqn:Ht.
    + destruct (get_truthy e "message" Ht) as [m Hm].
      rewrite (wrap_result_error w result e m Hr He Ht Hm) in H.
      inversion H; subst reason.
      split; [destruct m; reflexivity|].
      exists e. split; [exact He|]. split; [exact Ht|].
      destruct m; reflexivity.
    + rewrite (wrap_result_success w result e Hr He Ht) in H. discriminate.
  - left. rewrite (wrap_result_falsy w result Hr) in H.
    inversion H; subst reason. repeat split; reflexivity.
Qed.

Lemma wrap_result_rejection_kinds_witness :
  (truthy file_not_found = false /\
   get (VError [("message", VString "File not found: f1");
                ("gapi_error",
                 VObject [("code", VString "404");
                          ("message", VString "File not found: f1")])])
       "name" = Returns (VString "GapiError") /\
   get (VError [("message", VString "File not found: f1");
                ("gapi_error",
                 VObject [("code", VString "404");
                          ("message", VString "File not found: f1")])])
       "gapi_error" = Returns VUndefined)
  \/
  (truthy file_not_found = true /\
   get (VError [("message", VString "File not found: f1");
                ("gapi_error",
                 VObject [("code", VString "404");
                          ("message", VString "File not found: f1")])])
       "name" = Returns (VString "Error") /\
   exists e, get file_not_found "error" = Returns e /\ truthy e = true /\
             get (VError [("message", VString "File not found: f1");
                          ("gapi_error",
                           VObject [("code", VString "404");
                                    ("message", VString "File not found: f1")])])
                 "gapi_error" = Returns e).
Proof.
  exact (wrap_result_rejection_kinds popup_world file_not_found _ eq_refl).
Defined.

(** ** Requests *)


(** ** Download without a usable token *)

Lemma promising_ajax_returns (w : world) (url : string) (headers : value)
    (st : state) :
  exists p,
    promising_ajax w url (VObject [("headers", headers)]) st
    = (Returns p, logged st [EvHttpGet url headers]).
Proof.
  unfold promising_ajax, bind, lift, emit, ret. simpl.
  destruct (http_get w url headers); eexists; reflexivity.
Qed.

Lemma download_with_token
    (w : world) (url : string) (tok token : value) (st : state) :
  getToken w = Returns tok ->
  get tok "access_token" = Returns token ->
  exists p,
    download w url st
    = (Returns p,
       logged st [EvGetToken;
                  EvHttpGet url
                    (VObject [("Authorization",
                               VString ("Bearer " ++ ToString w token))])]).
Proof.
  intros Htok Hget.
  unfold download, external, bind, emit, lift.
  rewrite Htok, Hget.
  match goal with
  | |- context [promising_ajax w url (VObject [("headers", ?h)]) ?s] =>
      destruct (promising_ajax_returns w url h s) as [p Hp]
  end.
  rewrite Hp. unfold logged. cbn [log now]. rewrite <- app_assoc.
  exists p. reflexivity.
Qed.

(** X4.  [download] throws, and sends no request, when
    [gapi.auth.getToken()] throws or returns [null] or [undefined] (the
    read of [access_token] is then a TypeError).  With any other token
    value whose [access_token] is a string or another primitive it
    returns a promise after one request. *)
Theorem download_throws_without_token_object
    (w : world) (url : string) (st : state) :
  match getToken w with
  | Throws e => download w url st = (Throws e, logged st [EvGetToken])
  | Returns VNull | Returns VUndefined =>
      exists e,
        download w url st = (Throws e, logged st [EvGetToken]) /\
        is_Error e = true /\
        get e "name" = Returns (VString "TypeError")
  | Returns tok =>
      forall token,
        get tok "access_token" = Returns token ->
        primitive token = true ->
        exists p,
          download w url st
          = (Returns p,
             logged st [EvGetToken;
                        EvHttpGet url
                          (VObject [("Authorization",
                                     VString ("Bearer " ++ ToString w token))])])
  end.
Proof.
  destruct (getToken w) as [tok|e] eqn:Htok.
  - destruct tok;
      try (intros token Hget _;
           exact (download_with_token w url _ token st Htok Hget));
      unfold download, external, bind, emit, lift; rewrite Htok;
      cbn [get log now];
      eexists; (split; [reflexivity | split; reflexivity]).
  - unfold download, external, bind, emit, lift. rewrite Htok. reflexivity.
Qed.

(** X5.  A token without [access_token] does not stop [download]: the
    request is sent with the header ['Bearer undefined']. *)
Theorem download_without_access_token
    (w : world) (url : string) (tok : value) (st : state) :
  getToken w = Returns tok ->
  get tok "access_token" = Returns VUndefined ->
  exists p,
    download w url st
    = (Returns p,
       logged st [EvGetToken;
                  EvHttpGet url
                    (VObject [("Authorization", VString "Bearer undefined")])]).
Proof.
  intros Htok Hget.
  unfold download, external, bind, emit, lift.
  rewrite Htok, Hget.
  match goal with
  | |- context [promising_ajax w url (VObject [("headers", ?h)]) ?s] =>
      destruct (promising_ajax_returns w url h s) as [p Hp]
  end.
  rewrite Hp. unfold logged. cbn [log now]. rewrite <- app_assoc.
  exists p. reflexivity.
Qed.

Lemma download_without_access_token_witness :
  exists p,
    download tokenless_world "https://www.googleapis.com/drive/v2/files/f1" start
    = (Returns p,
       logged start
         [EvGetToken;
          EvHttpGet "https://www.googleapis.com/drive/v2/files/f1"
            (VObject [("Authorization", VString "Bearer undefined")])]).
Proof.
  exact (download_without_access_token tokenless_world
           "https://www.googleapis.com/drive/v2/files/f1"
           (VObject [("state", VString "expired")]) start eq_refl eq_refl).
Defined.

(** Before any authorization [getToken()] is [null]. *)
Example download_signed_out :
  download signed_out_world "https://www.googleapis.com/drive/v2/files/f1" start
  = (Throws (TypeError "Cannot read property 'access_token'"),
     logged start [EvGetToken]).
Proof. reflexivity. Qed.

(** ** The course of the polling *)

Lemma polling_function_first_true (condition : nat -> call bool) (interval : Z)
    (k : nat) :
  forall timers st,
    (forall j, j < k -> condition (now st + j) = Returns false) ->
    condition (now st + k) = Returns true ->
    k <= timers ->
    polling_function condition interval timers st
    = (Returns (Resolve (Fulfilled VUndefined)),
       {| log := log st ++ failed_polls interval k ++ [EvCondition true];
          now := now st + k |}).
Proof.
  induction k as [|k IH]; intros timers st Hfalse Htrue Hk;
    rewrite polling_function_step.
  - rewrite Nat.add_0_r in Htrue |- *. rewrite Htrue. reflexivity.
  - destruct timers as [|n]; [lia|].
    assert (H0 : condition (now st) = Returns false).
    { rewrite <- (Nat.add_0_r (now st)). apply Hfalse. lia. }
    rewrite H0. unfold callback.
    rewrite (IH n); cbn [log now Nat.add].
    + rewrite <- !app_assoc, Nat.add_succ_r. reflexivity.
    + intros j Hj. rewrite <- Nat.add_succ_r. apply Hfalse. lia.
    + rewrite <- Nat.add_succ_r. exact Htrue.
    + lia.
Qed.

Lemma polling_function_all_false (condition : nat -> call bool) (interval : Z)
    (timers : nat) :
  forall st,
    (forall j, j <= timers -> condition (now st + j) = Returns false) ->
    polling_function condition interval timers st
    = (Returns NoSettle,
       {| log := log st ++ failed_polls interval (S timers);
          now := now st + timers |}).
Proof.
  induction timers as [|n IH]; intros st Hfalse;
    assert (H0 : condition (now st) = Returns false)
      by (rewrite <- (Nat.add_0_r (now st)); apply Hfalse; lia);
    rewrite polling_function_step, H0.
  - unfold logged. rewrite Nat.add_0_r. reflexivity.
  - unfold callback. rewrite IH; cbn [log now Nat.add].
    + rewrite <- !app_assoc, Nat.add_succ_r. reflexivity.
    + intros j Hj. rewrite <- Nat.add_succ_r. apply Hfalse. lia.
Qed.

(** X6.  [poll] stops at the first tick at which the condition holds:
    when that is [k] ticks after the call, the condition is evaluated
    [k + 1] times, a timer is set after each of the [k] failures and
    none after the success, and the promise is resolved at tick
    [now + k], whatever number of timers beyond [k] is observed. *)
Theorem poll_stops_at_first_true
    (condition : nat -> call bool) (interval : Z) (k timers : nat) (st : state) :
  (forall j, j < k -> condition (now st + j) = Returns false) ->
  condition (now st + k) = Returns true ->
  k <= timers ->
  poll condition interval timers st
  = (Returns (Fulfilled VUndefined),
     {| log := log st ++ failed_polls interval k ++ [EvCondition true];
        now := now st + k |}).
Proof.
  intros Hfalse Htrue Hk. unfold poll, new_Promise.
  rewrite (polling_function_first_true condition interval k timers st
             Hfalse Htrue Hk).
  reflexivity.
Qed.

Lemma poll_stops_at_first_true_witness :
  poll (fun t => Returns (gapi_defined popup_world t)) 100 7 start
  = (Returns (Fulfilled VUndefined),
     {| log := [EvCondition false; EvSetTimeout 100;
                EvCondition false; EvSetTimeout 100;
                EvCondition true];
        now := 2 |}).
Proof.
  refine (poll_stops_at_first_true
            (fun t => Returns (gapi_defined popup_world t)) 100 2 7 start
            _ eq_refl _).
  - intros [|[|j]] Hj; [reflexivity | reflexivity | lia].
  - lia.
Defined.

(** X7.  As long as the condition has not held, [poll] has set one
    timer after each evaluation, each with the interval it was given,
    and its promise is pending. *)
Theorem poll_keeps_polling
    (condition : nat -> call bool) (interval : Z) (timers : nat) (st : state) :
  (forall j, j <= timers -> condition (now st + j) = Returns false) ->
  poll condition interval timers st
  = (Returns Pending,
     {| log := log st ++ failed_polls interval (S timers);
        now := now st + timers |}).
Proof.
  intros Hfalse. unfold poll, new_Promise.
  rewrite (polling_function_all_false condition interval timers st Hfalse).
  reflexivity.
Qed.

Lemma poll_keeps_polling_witness :
  poll (fun t => Returns (gapi_defined popup_world t)) 100 1 start
  = (Returns Pending,
     {| log := [EvCondition false; EvSetTimeout 100;
                EvCondition false; EvSetTimeout 100];
        now := 1 |}).
Proof.
  refine (poll_keeps_polling
            (fun t => Returns (gapi_defined popup_world t)) 100 1 start _).
  intros [|[|j]] Hj; [reflexivity | reflexivity | lia].
Defined.

(** ** The steps of the chain *)




(** A [gapi.client.load] that throws in a callback invoked before
    [gapi.load] returns. *)
Example load_gapi_2_eager_world :
  load_gapi_2 eager_world VUndefined start
  = (Returns (Rejected (TypeError "gapi.client is undefined")),
     logged start [EvGapiLoad feature_modules; EvClientLoad "drive" "v2"]).
Proof. reflexivity. Qed.

(** ** What a resolved authorization means *)

Lemma attempt_fulfilled (w : world) (params v : value) :
  attempt_settles w params (Fulfilled v) ->
  auth_authorize w params = Returns (Some v) /\
  truthy v = true /\ has_error v = false.
Proof.
  unfold attempt_settles.
  destruct (auth_authorize w params) as [[result|]|e]; try discriminate.
  intros H.
  destruct (wrap_result_returns w result) as [p [Hp Hcase]].
  rewrite H in Hp. inversion Hp; subst p. clear Hp.
  destruct (truthy result) eqn:Hr; simpl in Hcase.
  - destruct (has_error result) eqn:He.
    + destruct Hcase as [reason Hc]. discriminate.
    + inversion Hcase. subst v. auto.
  - destruct Hcase as [reason Hc]. discriminate.
Qed.

Lemma authorize_with_popup_fulfilled
    (w : world) (opt_withPopup v : value) (st st' : state) :
  truthy opt_withPopup = true ->
  authorize w opt_withPopup st = (Returns (Fulfilled v), st') ->
  attempt_settles w (authorize_request false) (Fulfilled v) /\
  st' = logged st [authentication_dialog; EvAuthorize (authorize_request false)].
Proof.
  intros Ht H.
  destruct (authorize_with_popup_calls w opt_withPopup st Ht)
    as [p [evs [Hrun Hcases]]].
  rewrite Hrun in H. inversion H; subst p st'. clear H.
  rewrite authorize_params_request, Ht in Hcases. simpl negb in Hcases.
  destruct Hcases as [[ev [_ [Hevs Hs]]] | [_ [_ Hp]]].
  - subst evs. auto.
  - destruct (user_click w) as [[[label ev]|]|e]; try discriminate.
    destruct (String.eqb label "cancel"); discriminate.
Qed.

Lemma authorize_fulfilled_inv
    (w : world) (opt_withPopup v : value) (st st' : state) :
  authorize w opt_withPopup st = (Returns (Fulfilled v), st') ->
  exists immediate before,
    attempt_settles w (authorize_request immediate) (Fulfilled v) /\
    st' = logged st (before ++ [EvAuthorize (authorize_request immediate)]).
Proof.
  intros H. destruct (truthy opt_withPopup) eqn:Ht.
  - destruct (authorize_with_popup_fulfilled w opt_withPopup v st st' Ht H)
      as [Hs Hst].
    exists false, [authentication_dialog]. auto.
  - destruct (authorize_without_popup w opt_withPopup st Ht)
      as [p1 [_ [Hs1 Hrun]]].
    rewrite authorize_params_request, Ht in Hs1, Hrun. simpl negb in Hs1, Hrun.
    rewrite Hrun in H.
    destruct p1 as [|v1|r]; try discriminate.
    + inversion H; subst v1 st'. exists true, []. auto.
    + destruct (authorize_with_popup_fulfilled w (VBool true) v _ st' eq_refl H)
        as [Hs Hst].
      rewrite logged_logged in Hst.
      exists false, [EvAuthorize (authorize_request true); authentication_dialog].
      auto.
Qed.

(** X10.  When the promise of [authorize] is resolved, its value is what
    [gapi.auth.authorize] handed to the callback of the last attempt
    made, and that value is truthy and has no truthy ['error']: a
    result that reports an error never resolves the authorization. *)
Theorem authorize_resolves_with_valid_result
    (w : world) (opt_withPopup v : value) (st st' : state) :
  authorize w opt_withPopup st = (Returns (Fulfilled v), st') ->
  truthy v = true /\ has_error v = false /\
  exists immediate before,
    auth_authorize w (authorize_request immediate) = Returns (Some v) /\
    st' = logged st (before ++ [EvAuthorize (authorize_request immediate)]).
Proof.
  intros H.
  destruct (authorize_fulfilled_inv w opt_withPopup v st st' H)
    as [immediate [before [Hs Hst]]].
  destruct (attempt_fulfilled w _ v Hs) as [Ha [Ht He]].
  split; [exact Ht|]. split; [exact He|].
  exists immediate, before. auto.
Qed.

Lemma authorize_resolves_with_valid_result_witness :
  truthy token_object = true /\ has_error token_object = false /\
  exists immediate before,
    auth_authorize popup_world (authorize_request immediate)
    = Returns (Some token_object) /\
    logged start [EvAuthorize (authorize_request true);
                  authentication_dialog;
                  EvAuthorize (authorize_request false)]
    = logged start (before ++ [EvAuthorize (authorize_request immediate)]).
Proof.
  refine (authorize_resolves_with_valid_result popup_world VUndefined
            token_object start _ _).
  vm_compute. reflexivity.
Defined.

(** X11.  A dialog that is closed without a click on ok or cancel
    leaves the promise of [authorize] pending for ever: nothing but the
    two buttons settles it.  The dialog is then the last call made; it
    is not shown only when the attempt without popup was not
    rejected. *)
Theorem authorize_pending_when_dialog_dismissed
    (w : world) (opt_withPopup : value) (st : state) :
  user_click w = Returns None ->
  exists p evs,
    authorize w opt_withPopup st = (Returns p, logged st evs) /\
    (In authentication_dialog evs ->
     p = Pending /\ exists before, evs = (before ++ [authentication_dialog])%list) /\
    (~ In authentication_dialog evs ->
     truthy opt_withPopup = false /\
     evs = [EvAuthorize (authorize_request true)] /\
     forall r, p <> Rejected r).
Proof.
  intros Hclick.
  assert (Hpopup : forall flag s,
             truthy flag = true ->
             authorize w flag s = (Returns Pending, logged s [authentication_dialog])).
  { intros flag s Ht. rewrite (authorize_with_popup w flag s Ht), Hclick.
    reflexivity. }
  destruct (truthy opt_withPopup) eqn:Ht.
  - exists Pending, [authentication_dialog]. split; [apply Hpopup; exact Ht|].
    split.
    + intros _. split; [reflexivity|]. exists []. reflexivity.
    + intros H. elim H. left. reflexivity.
  - destruct (authorize_without_popup w opt_withPopup st Ht)
      as [p1 [_ [_ Hrun]]].
    rewrite authorize_params_request, Ht in Hrun. simpl negb in Hrun.
    destruct p1 as [|v1|r].
    + exists Pending, [EvAuthorize (authorize_request true)].
      split; [exact Hrun|]. split.
      * intros [H|[]]. discriminate.
      * intros _. repeat split. discriminate.
    + exists (Fulfilled v1), [EvAuthorize (authorize_request true)].
      split; [exact Hrun|]. split.
      * intros [H|[]]. discriminate.
      * intros _. repeat split. discriminate.
    + rewrite (Hpopup (VBool true) _ eq_refl), logged_logged in Hrun.
      exists Pending, [EvAuthorize (authorize_request true); authentication_dialog].
      split; [exact Hrun|]. split.
      * intros _. split; [reflexivity|].
        exists [EvAuthorize (authorize_request true)]. reflexivity.
      * intros H. elim H. right. left. reflexivity.
Qed.

Lemma authorize_pending_when_dialog_dismissed_witness :
  exists p evs,
    authorize signed_out_world VUndefined start = (Returns p, logged start evs) /\
    (In authentication_dialog evs ->
     p = Pending /\ exists before, evs = (before ++ [authentication_dialog])%list) /\
    (~ In authentication_dialog evs ->
     truthy VUndefined = false /\
     evs = [EvAuthorize (authorize_request true)] /\
     forall r, p <> Rejected r).
Proof.
  exact (authorize_pending_when_dialog_dismissed signed_out_world VUndefined
           start eq_refl).
Defined.

(** ** What the exported promise means *)

Lemma load_gapi_1_fulfilled_inv
    (w : world) (timers : nat) (v1 : value) (st st1 : state) :
  load_gapi_1 w timers st = (Returns (Fulfilled v1), st1) ->
  (exists script k,
     getScript w client_js = Returns (Fulfilled script) /\
     k <= timers /\ gapi_defined w (now st + k) = true)
  \/
  (exists reason,
     getScript w client_js = Returns (Rejected reason) /\
     wrap_ajax_error w reason = Returns v1).
Proof.
  rewrite load_gapi_1_cases.
  destruct (getScript w client_js) as [[|script|reason]|e]; try discriminate.
  - intros H. left. exists script.
    destruct (polling_function_spec (gapi_defined w) 100 timers
                (logged st [EvGetScript client_js]))
      as [s [evs [t' [Hrun [_ [Hs [Hres [Hin _]]]]]]]].
    unfold poll, new_Promise in H. rewrite Hrun in H.
    destruct Hs as [-> | ->]; [|discriminate].
    destruct (proj1 Hin (proj1 Hres eq_refl)) as [k [Hk Hc]].
    exists k. auto.
  - intros H. right. exists reason. split; [reflexivity|].
    destruct (wrap_ajax_error w reason) as [wrapped|e]; [|discriminate].
    inversion H. reflexivity.
Qed.

Lemma load_gapi_2_fulfilled_inv
    (w : world) (d v2 : value) (st st2 : state) :
  load_gapi_2 w d st = (Returns (Fulfilled v2), st2) ->
  gapi_load w feature_modules = Returns true /\
  client_load w "drive" "v2" = Returns (Some v2).
Proof.
  rewrite load_gapi_2_cases.
  destruct (gapi_load w feature_modules) as [[|]|e]; try discriminate.
  destruct (client_load w "drive" "v2") as [[v|]|e]; try discriminate;
    try (destruct (rethrows w (EvGapiLoad feature_modules)); discriminate).
  intros H. inversion H. auto.
Qed.

(** X12.  When [gapi_ready] is resolved, every step has gone through:
    the modules and the drive API were loaded, and the value is the
    truthy, error-free result that [gapi.auth.authorize] handed to its
    callback.  Of the first step it is only known that the library
    appeared, or that the fetch failed and [utils.wrap_ajax_error]
    returned. *)
Theorem gapi_ready_resolved_means_authorized
    (w : world) (timers : nat) (v : value) (st st' : state) :
  gapi_ready w timers st = (Returns (Fulfilled v), st') ->
  truthy v = true /\ has_error v = false /\
  (exists immediate,
     auth_authorize w (authorize_request immediate) = Returns (Some v)) /\
  gapi_load w feature_modules = Returns true /\
  (exists v2, client_load w "drive" "v2" = Returns (Some v2)) /\
  ((exists script k,
      getScript w client_js = Returns (Fulfilled script) /\
      k <= timers /\ gapi_defined w (now st + k) = true)
   \/
   (exists reason wrapped,
      getScript w client_js = Returns (Rejected reason) /\
      wrap_ajax_error w reason = Returns wrapped)).
Proof.
  intros H.
  destruct (gapi_ready_run w timers st) as [c1 [evs1 [t1 [H1 [_ Hrest]]]]].
  cbv zeta in H1, Hrest.
  destruct c1 as [[|v1|r1]|e];
    try (rewrite Hrest in H; discriminate).
  destruct Hrest as [p2 [evs2 [H2 [_ Hrest]]]].
  destruct p2 as [|v2|r2];
    try (rewrite Hrest in H; discriminate).
  destruct Hrest as [p3 [evs3 [H3 [_ Hrest]]]].
  rewrite Hrest in H. inversion H; subst p3 st'. clear H.
  destruct (authorize_fulfilled_inv w v2 v _ _ H3)
    as [immediate [before [Hs _]]].
  destruct (attempt_fulfilled w _ v Hs) as [Ha [Ht He]].
  destruct (load_gapi_2_fulfilled_inv w v1 v2 _ _ H2) as [Hl Hc].
  split; [exact Ht|]. split; [exact He|]. split; [eauto|].
  split; [exact Hl|]. split; [eauto|].
  destruct (load_gapi_1_fulfilled_inv w timers v1 st _ H1)
    as [[script [k Hk]] | [reason Hr]]; [left | right]; eauto.
Qed.

Lemma gapi_ready_resolved_means_authorized_witness :
  truthy token_object = true /\ has_error token_object = false /\
  (exists immediate,
     auth_authorize popup_world (authorize_request immediate)
     = Returns (Some token_object)) /\
  gapi_load popup_world feature_modules = Returns true /\
  (exists v2, client_load popup_world "drive" "v2" = Returns (Some v2)) /\
  ((exists script k,
      getScript popup_world client_js = Returns (Fulfilled script) /\
      k <= 2 /\ gapi_defined popup_world (now start + k) = true)
   \/
   (exists reason wrapped,
      getScript popup_world client_js = Returns (Rejected reason) /\
      wrap_ajax_error popup_world reason = Returns wrapped)).
Proof.
  refine (gapi_ready_resolved_means_authorized popup_world 2 token_object
            start _ _).
  vm_compute. reflexivity.
Defined.

(** X13.  The body of the module throws only when [$.getScript] throws.
    In every other case it returns the exports, [download] and [execute]
    with them, whatever becomes of [gapi_ready]: a failed startup shows
    in that promise alone. *)
Theorem define_throws_only_with_getScript
    (w : world) (timers : nat) (st : state) :
  match getScript w client_js with
  | Throws e =>
      define w timers st = (Throws e, logged st [EvGetScript client_js])
  | Returns _ =>
      exists exports st',
        define w timers st = (Returns exports, st') /\
        exported_download exports = download w /\
        exported_execute exports = execute w /\
        fst (gapi_ready w timers st) = Returns (exported_gapi_ready exports)
  end.
Proof.
  destruct (gapi_ready_run w timers st) as [c1 [evs1 [t1 [H1 [_ Hrest]]]]].
  cbv zeta in H1, Hrest.
  assert (Hret : forall p s, gapi_ready w timers st = (Returns p, s) ->
                 exists exports st',
                   define w timers st = (Returns exports, st') /\
                   exported_download exports = download w /\
                   exported_execute exports = execute w /\
                   fst (gapi_ready w timers st)
                   = Returns (exported_gapi_ready exports)).
  { intros p s Hg. unfold define, bind. rewrite Hg.
    eexists; eexists. repeat split. }
  rewrite load_gapi_1_cases in H1.
  destruct (getScript w client_js) as [[|script|reason]|e].
  - inversion H1; subst c1. eapply Hret. exact Hrest.
  - destruct c1 as [[|v1|r1]|e1].
    + eapply Hret. exact Hrest.
    + destruct Hrest as [p2 [evs2 [_ [_ Hrest]]]].
      destruct p2 as [|v2|r2]; try (eapply Hret; exact Hrest).
      destruct Hrest as [p3 [evs3 [_ [_ Hrest]]]]. eapply Hret. exact Hrest.
    + eapply Hret. exact Hrest.
    + exfalso.
      destruct (polling_function_spec (gapi_defined w) 100 timers
                  (logged st [EvGetScript client_js]))
        as [s [evs [t' [Hrun [_ [Hs _]]]]]].
      unfold poll, new_Promise in H1. rewrite Hrun in H1.
      destruct Hs as [-> | ->]; discriminate.
  - destruct (wrap_ajax_error w reason) as [wrapped|e'].
    + inversion H1; subst c1.
      destruct Hrest as [p2 [evs2 [_ [_ Hrest]]]].
      destruct p2 as [|v2|r2]; try (eapply Hret; exact Hrest).
      destruct Hrest as [p3 [evs3 [_ [_ Hrest]]]]. eapply Hret. exact Hrest.
    + inversion H1; subst c1. eapply Hret. exact Hrest.
  - inversion H1; subst c1. unfold define, bind. rewrite Hrest.
    f_equal. unfold logged. congruence.
Qed.

(** X14.  There is no limit to the polling: as long as the library has
    not appeared, [gapi_ready] is pending, a timer of 100 ms is set
    after each evaluation, and nothing is loaded or authorized. *)
Theorem gapi_ready_waits_for_the_library
    (w : world) (timers : nat) (script : value) (st : state) :
  getScript w client_js = Returns (Fulfilled script) ->
  (forall j, j <= timers -> gapi_defined w (now st + j) = false) ->
  gapi_ready w timers st
  = (Returns Pending,
     {| log := log st ++ EvGetScript client_js :: failed_polls 100 (S timers);
        now := now st + timers |}).
Proof.
  intros Hs Hfalse.
  unfold gapi_ready, bind. rewrite load_gapi_1_cases, Hs.
  unfold poll, new_Promise.
  rewrite (polling_function_all_false
             (fun t => Returns (gapi_defined w t)) 100 timers
             (logged st [EvGetScript client_js])
             (fun j Hj => f_equal Returns (Hfalse j Hj))).
  unfold logged. cbn [log now then_ ret]. rewrite <- app_assoc. reflexivity.
Qed.

Lemma gapi_ready_waits_for_the_library_witness :
  gapi_ready popup_world 1 start
  = (Returns Pending,
     {| log := [EvGetScript client_js;
                EvCondition false; EvSetTimeout 100;
                EvCondition false; EvSetTimeout 100];
        now := 1 |}).
Proof.
  refine (gapi_ready_waits_for_the_library popup_world 1 (VString "script")
            start eq_refl _).
  intros [|[|j]] Hj; [reflexivity | reflexivity | lia].
Defined.




